(** * CsvDB: the CSV-backed report store of powerapi

    A shallow embedding of [powerapi/database/csvdb.py] and a verification of
    its read path (connect, the timestamp-synchronised merge iterator) and
    its write path (save, header reconciliation), followed by the handlers
    of the pusher, [smartwatts/pusher/handlers.py], that drive the write
    path.

    Modelling conventions.
    - A Python exception is a value of [exn]; a call that may raise returns
      a [result].  Methods that mutate [self] are computations in the
      state-and-exception monad [M]: the state reached when the exception was
      raised is kept, exactly as the mutated object survives a Python raise.
    - A CSV file on disk is the list of its records, each record the list
      of its cells: the text-level quoting done by Python's [csv] module is
      not part of this repository and is abstracted away.
    - [datetime] values are represented by integers carrying their order.
    - A [csv.DictReader] is represented by the rows it has not produced yet.
      They are fixed when the file is opened; appending to a file that is
      being read is outside the supported use of the store. *)

From Stdlib Require Import ZArith Ascii String List OrdersEx.
From stdpp Require Import base option list gmap strings sorting.

Set Warnings "-register-all".
Set Default Proof Using "Type".
Open Scope string_scope.
Open Scope list_scope.
Open Scope Z_scope.

(** ** Exceptions and results *)

Inductive exn : Type :=
| StopIteration
| TypeError
| KeyError
| ValueError
| AttributeError
| IndexError
| FileNotFoundError
| PermissionError
| CsvBadFilePathError
| CsvBadCommonKeysError
| HeaderAreNotTheSameError.

Inductive result (A : Type) : Type :=
| Ok (a : A)
| Raise (e : exn).
Arguments Ok {A} a.
Arguments Raise {A} e.

#[global] Instance exn_eq_dec : EqDecision exn.
Proof. solve_decision. Defined.

(** Computations over a mutable state [S] that may raise. *)
Definition M (S A : Type) : Type := S → result A * S.

Definition ret {S A} (a : A) : M S A := λ s, (Ok a, s).
Definition raise {S A} (e : exn) : M S A := λ s, (Raise e, s).
Definition bind {S A B} (m : M S A) (k : A → M S B) : M S B :=
  λ s, match m s with
       | (Ok a, s') => k a s'
       | (Raise e, s') => (Raise e, s')
       end.
Definition get {S} : M S S := λ s, (Ok s, s).
Definition modify {S} (f : S → S) : M S unit := λ s, (Ok tt, f s).
Definition lift {S A} (r : result A) : M S A := λ s, (r, s).

Declare Scope py_scope.
Delimit Scope py_scope with py.
Notation "x <- m ;; k" := (bind m (λ x, k))
  (at level 100, m at next level, right associativity) : py_scope.
Notation "m ;;; k" := (bind m (λ _, k))
  (at level 100, right associativity) : py_scope.
Open Scope py_scope.

(** [for x in l: body x] *)
Fixpoint for_each {S A} (l : list A) (body : A → M S unit) : M S unit :=
  match l with
  | [] => ret tt
  | x :: l' => body x ;;; for_each l' body
  end.

(** ** Nested dictionaries (reports, decoded rows) *)

(** A Python value met in a report: a scalar, or a [dict] with string keys
    kept in insertion order. *)
Inductive value : Type :=
| VScalar (s : string)
| VDict (d : list (string * value)).

Abbreviation dict := (list (string * value)).

Fixpoint dict_get (k : string) (d : dict) : option value :=
  match d with
  | [] => None
  | (k', v) :: d' => if String.eqb k k' then Some v else dict_get k d'
  end.

(** [d[k] = v] *)
Fixpoint dict_set (k : string) (v : value) (d : dict) : dict :=
  match d with
  | [] => [(k, v)]
  | (k', v') :: d' =>
      if String.eqb k k' then (k, v) :: d' else (k', v') :: dict_set k v d'
  end.

(** Modelled from the spec: [utils.dict_merge] is not in the sources at hand.
    The spec describes it as a deep union: every key of the second mapping is
    written into the first; when both hold a mapping under the same key the
    two are unioned recursively, otherwise the most recent value wins.
    [merge_value v2 o1] is the value stored under a key whose incoming value
    is [v2] and whose present value, if any, is [o1]. *)
Fixpoint merge_value (v2 : value) (o1 : option value) {struct v2} : value :=
  match v2, o1 with
  | VDict d2, Some (VDict d1) =>
      VDict ((fix merge_items (l : dict) (acc : dict) {struct l} : dict :=
                match l with
                | [] => acc
                | (k, v) :: l' =>
                    merge_items l' (dict_set k (merge_value v (dict_get k acc)) acc)
                end) d2 d1)
  | _, _ => v2
  end.

(** Modelled from the spec: the deep union [utils.dict_merge(dict1, dict2)]
    makes of [dict1]. *)
Definition deep_union (dict1 dict2 : dict) : dict :=
  fold_left (λ acc kv, dict_set kv.1 (merge_value kv.2 (dict_get kv.1 acc)) acc)
            dict2 dict1.

(** ** Strings *)

Definition string_leb (a b : string) : bool :=
  match String_as_OT.compare a b with
  | Gt => false
  | _ => true
  end.

(** Python's order on [str]: lexicographic on the code units. *)
Definition string_le (a b : string) : Prop := Is_true (string_leb a b).

#[global] Instance string_le_dec : RelDecision string_le.
Proof. intros a b. unfold string_le. apply _. Defined.

Fixpoint has_slash (s : string) : bool :=
  match s with
  | EmptyString => false
  | String c s' => if Ascii.eqb c "/"%char then true else has_slash s'
  end.

(** [path.split('/')[-1]] *)
Fixpoint basename (s : string) : string :=
  match s with
  | EmptyString => EmptyString
  | String c s' =>
      if has_slash s' then basename s'
      else if Ascii.eqb c "/"%char then s' else s
  end.

(** [s[-1]], raising [IndexError] on the empty string *)
Fixpoint last_char (s : string) : result Ascii.ascii :=
  match s with
  | EmptyString => Raise IndexError
  | String c EmptyString => Ok c
  | String _ s' => last_char s'
  end.

(** ** CSV files and the file system *)

(** One line of a CSV file, as its cells. *)
Abbreviation record := (list string).

Record file_node : Type := {
  readable : bool;
  content : list record
}.

(** The regular files of the disk, by path.  Directories are not modelled:
    [os.makedirs] creates no regular file. *)
Abbreviation filesystem := (gmap string file_node).

(** [open(path)] for reading *)
Definition open_read (fs : filesystem) (path : string) : result (list record) :=
  match fs !! path with
  | None => Raise FileNotFoundError
  | Some f => if readable f then Ok (content f) else Raise PermissionError
  end.

(** Writing [lines] through a handle obtained with [open(path, 'a')]:
    the file is created when absent. *)
Definition append_lines (path : string) (lines : list record)
    (fs : filesystem) : filesystem :=
  match fs !! path with
  | None => <[path := {| readable := true; content := lines |}]> fs
  | Some f =>
      <[path := {| readable := readable f; content := content f ++ lines |}]> fs
  end.

(** A row produced by [csv.DictReader]: the cells by field name ([None]
    is the [restval] of a short line) and, for a long line, the surplus
    cells stored under the [restkey]. *)
Record csv_row : Type := {
  cells : gmap string (option string);
  extras : option (list string)
}.

(** [reader.fieldnames]: the first record of the file, [None] when the file
    is empty. *)
Definition fieldnames (lines : list record) : option record := head lines.

Definition zip_row (names : record) (line : record) : csv_row :=
  {| cells :=
       fold_left (λ (m : gmap string (option string)) kv, <[kv.1 := kv.2]> m)
         (zip names (Some <$> line)
            ++ ((λ k, (k, None)) <$> drop (length line) names))
         ∅;
     extras :=
       if decide (length names < length line)%nat
       then Some (drop (length names) line) else None |}.

Definition is_blank (line : record) : bool :=
  match line with [] => true | _ => false end.

(** The rows a fresh [csv.DictReader] over the file will produce: the first
    record gives the field names, blank lines are skipped. *)
Definition DictReader (lines : list record) : list csv_row :=
  match lines with
  | [] => []
  | names :: rest => zip_row names <$> filter (λ l, is_blank l = false) rest
  end.

(** ** What the module takes from outside *)

(** The cells of one row to write, by field name, in the order the codec
    produced them; the values are the texts the [csv] writer emits. *)
Abbreviation field_map := (list (string * string)).

(** The report model handed to the store at construction: the codec between
    reports and rows.  [to_csvdb] gives the groups of a report, by file
    name, in the order of the returned mapping. *)
Class ReportModel : Type := {
  from_csvdb : string → csv_row → dict;
  to_csvdb : dict → list (string * field_map)
}.

(** Names the module imports and that are not in the sources at hand:
    [report_model.KEYS_COMMON], Python's [int] on a [str] ([None] stands for
    [ValueError]), [utils.timestamp_to_datetime] and [utils.dict_merge]
    ([dict_merge dict1 dict2] is the value of [dict1] after the call).
    The conversion to a datetime raises on the timestamps no datetime can
    stand for: [timestamp_error n] is the exception it raises on [n], [None]
    when it returns [timestamp_to_datetime n].  It converts 0, which the
    constructor hands it. *)
Class Imports : Type := {
  KEYS_COMMON : list string;
  int : string → option Z;
  timestamp_to_datetime : Z → Z;
  timestamp_error : Z → option exn;
  epoch_converts : timestamp_error 0 = None;
  dict_merge : dict → dict → dict
}.

(** Array of field that will not be considered as a group *)
Definition COMMON_ROW : list string :=
  ["timestamp"; "sensor"; "target"; "socket"; "cpu"].

(** Modelled from the spec: the value of [report_model.KEYS_COMMON], which
    the sources at hand import but do not define.  The spec fixes the
    required common field names as timestamp, sensor, target, socket, cpu. *)
Definition KEYS_COMMON_spec : list string :=
  ["timestamp"; "sensor"; "target"; "socket"; "cpu"].

(** ** The store *)

(** [tmp_read[path]['next_line']]: the empty list put there by [add_file],
    [None] once the reader is exhausted, or the next row to merge. *)
Inductive lookahead : Type :=
| Unprimed
| Exhausted
| Row (r : csv_row).

Record file_obj : Type := {
  name : string;
  closed : bool
}.

Record entry : Type := {
  next_line : lookahead;
  reader : option (list csv_row);
  file : option file_obj
}.

Record CsvDB : Type := {
  filenames : list string;
  current_path : string;
  tmp_read : gmap string entry;
  saved_timestamp : Z
}.

Definition set_next_line (la : lookahead) (e : entry) : entry :=
  {| next_line := la; reader := reader e; file := file e |}.
Definition set_reader (rd : option (list csv_row)) (e : entry) : entry :=
  {| next_line := next_line e; reader := rd; file := file e |}.
Definition set_file (f : option file_obj) (e : entry) : entry :=
  {| next_line := next_line e; reader := reader e; file := f |}.

Definition set_filenames (l : list string) (db : CsvDB) : CsvDB :=
  {| filenames := l; current_path := current_path db;
     tmp_read := tmp_read db; saved_timestamp := saved_timestamp db |}.
Definition set_tmp_read (m : gmap string entry) (db : CsvDB) : CsvDB :=
  {| filenames := filenames db; current_path := current_path db;
     tmp_read := m; saved_timestamp := saved_timestamp db |}.
Definition set_saved_timestamp (t : Z) (db : CsvDB) : CsvDB :=
  {| filenames := filenames db; current_path := current_path db;
     tmp_read := tmp_read db; saved_timestamp := t |}.

(** [self.tmp_read[path]] *)
Definition get_entry (path : string) : M CsvDB entry :=
  db <- get ;;
  match tmp_read db !! path with
  | Some e => ret e
  | None => raise KeyError
  end.

(** [self.tmp_read[path][field] = ...] *)
Definition update_entry (path : string) (f : entry → entry) : M CsvDB unit :=
  e <- get_entry path ;;
  modify (λ db, set_tmp_read (<[path := f e]> (tmp_read db)) db).

Definition file_closed (e : entry) : bool :=
  match file e with
  | Some f => closed f
  | None => false
  end.

(** What [reader.__next__()] can still read: the remaining rows, or the
    exception every call raises ([reader] is [None], or its file is closed). *)
Definition reader_rows (e : entry) : result (list csv_row) :=
  match reader e with
  | None => Raise AttributeError
  | Some rows => if file_closed e then Raise ValueError else Ok rows
  end.

(** The state of an entry whose lookahead and reader together still hold
    [stream]. *)
Definition of_stream (stream : list csv_row) (e : entry) : entry :=
  match stream with
  | [] => set_next_line Exhausted (set_reader (Some []) e)
  | r :: rows => set_next_line (Row r) (set_reader (Some rows) e)
  end.

Section Store.
Context `{ReportModel} `{Imports}.

Definition __init__ (path : string) : result CsvDB :=
  match last_char path with
  | Raise e => Raise e
  | Ok c =>
      Ok {| filenames := [];
            current_path := if Ascii.eqb c "/"%char then path else path +:+ "/";
            tmp_read := ∅;
            saved_timestamp := timestamp_to_datetime 0 |}
  end.

(** Get next row, None otherwise *)
Definition _next (path_file : string) : M CsvDB lookahead :=
  e <- get_entry path_file ;;
  rows <- lift (reader_rows e) ;;
  match rows with
  | [] => ret Exhausted
  | r :: rest => update_entry path_file (set_reader (Some rest)) ;;; ret (Row r)
  end.

Definition add_file (filename : string) : M CsvDB unit :=
  match filename with
  | EmptyString => raise IndexError
  | String c _ =>
      db <- get ;;
      let filename :=
        if Ascii.eqb c "/"%char then filename else current_path db +:+ filename in
      modify (λ db, set_filenames (filenames db ++ [filename]) db) ;;;
      modify (λ db, set_tmp_read
                      (<[filename := {| next_line := Unprimed;
                                        reader := None;
                                        file := None |}]> (tmp_read db)) db)
  end.

Definition add_files (names : list string) : M CsvDB unit :=
  for_each names add_file.

Definition clean_files : M CsvDB unit :=
  modify (λ db, set_tmp_read ∅ (set_filenames [] db)).

(** [utils.timestamp_to_datetime(int(row['timestamp']))] *)
Definition row_timestamp (row : csv_row) : result Z :=
  match cells row !! "timestamp" with
  | None => Raise KeyError
  | Some None => Raise TypeError
  | Some (Some s) =>
      match int s with
      | None => Raise ValueError
      | Some n =>
          match timestamp_error n with
          | Some e => Raise e
          | None => Ok (timestamp_to_datetime n)
          end
      end
  end.

(** The body of [while True] in [__next__], run on an open reader.
    [stream] is the lookahead row followed by the rows still in the reader.
    Returns the outcome (the merged record, or the exception), the stream
    left, and the new value of [saved_timestamp] when it is assigned. *)
Fixpoint scan (current_timestamp : Z) (primary : bool) (fname : string)
    (stream : list csv_row) (json : dict)
    : result dict * list csv_row * option Z :=
  match stream with
  | [] => (Ok json, [], None)
  | row :: rest =>
      match row_timestamp row with
      | Raise e => (Raise e, stream, None)
      | Ok row_ts =>
          if current_timestamp <? row_ts then
            (Ok json, stream, if primary then Some row_ts else None)
          else
            scan current_timestamp primary fname rest
              (if row_ts =? current_timestamp
               then dict_merge json (from_csvdb fname row)
               else json)
      end
  end.

(** [while True: ...] of [__next__] for one [path_file]. *)
Definition while_true (path_file : string) (current_timestamp : Z)
    (json : dict) : M CsvDB dict :=
  db <- get ;;
  e <- get_entry path_file ;;
  let primary := bool_decide (head (filenames db) = Some path_file) in
  match next_line e with
  | Exhausted => ret json
  | Unprimed => raise TypeError
  | Row row =>
      match reader_rows e with
      | Ok rows =>
          let '(res, stream, saved) :=
            scan current_timestamp primary (basename path_file)
                 (row :: rows) json in
          update_entry path_file (of_stream stream) ;;;
          match saved with
          | Some t => modify (set_saved_timestamp t)
          | None => ret tt
          end ;;;
          lift res
      | Raise err =>
          (* the row can be inspected, but [_next] raises as soon as it
             has to be passed *)
          row_ts <- lift (row_timestamp row) ;;
          if current_timestamp <? row_ts then
            (if primary then modify (set_saved_timestamp row_ts) else ret tt) ;;;
            ret json
          else raise err
      end
  end.

(** [for path_file in self.filenames: ...] of [__next__] *)
Fixpoint for_filenames (paths : list string) (current_timestamp : Z)
    (json : dict) : M CsvDB dict :=
  match paths with
  | [] => ret json
  | path_file :: paths' =>
      json' <- while_true path_file current_timestamp json ;;
      for_filenames paths' current_timestamp json'
  end.

(** Allow to get the next data *)
Definition __next__ : M CsvDB dict :=
  db <- get ;;
  json <- for_filenames (filenames db) (saved_timestamp db) [] ;;
  match json with
  | [] => raise StopIteration
  | _ => ret json
  end.

Definition close_if_open (path_file : string) : M CsvDB unit :=
  e <- get_entry path_file ;;
  match file e with
  | Some f =>
      update_entry path_file
        (set_file (Some {| name := name f; closed := true |}))
  | None => ret tt
  end.

(** [for key in KEYS_COMMON: if key not in next_line: raise ...] *)
Fixpoint check_common_keys (keys : list string) (la : lookahead)
    : result unit :=
  match keys with
  | [] => Ok tt
  | key :: keys' =>
      match la with
      | Exhausted => Raise TypeError
      | Unprimed => Raise CsvBadCommonKeysError
      | Row row =>
          match cells row !! key with
          | Some _ => check_common_keys keys' la
          | None => Raise CsvBadCommonKeysError
          end
      end
  end.

Definition open_and_prime (fs : filesystem) (path_file : string)
    : M CsvDB unit :=
  match open_read fs path_file with
  | Raise FileNotFoundError => raise CsvBadFilePathError
  | Raise e => raise e
  | Ok lines =>
      update_entry path_file
        (set_file (Some {| name := path_file; closed := false |})) ;;;
      update_entry path_file (set_reader (Some (DictReader lines))) ;;;
      la <- _next path_file ;;
      update_entry path_file (set_next_line la) ;;;
      e <- get_entry path_file ;;
      lift (check_common_keys KEYS_COMMON (next_line e))
  end.

(** [int(next_line['timestamp'])] converted, on whatever the lookahead is *)
Definition lookahead_timestamp (la : lookahead) : result Z :=
  match la with
  | Row row => row_timestamp row
  | _ => Raise TypeError
  end.

(** Close file if already open; read first line of all the .csv file and
    check if the pattern is good. *)
Definition connect (fs : filesystem) : M CsvDB unit :=
  db <- get ;;
  for_each (filenames db) close_if_open ;;;
  for_each (filenames db) (open_and_prime fs) ;;;
  match filenames db with
  | [] => ret tt
  | first :: _ =>
      e <- get_entry first ;;
      t <- lift (lookahead_timestamp (next_line e)) ;;
      modify (set_saved_timestamp t)
  end.

(** Create the iterator for get the data *)
Definition __iter__ (fs : filesystem) : M CsvDB unit := connect fs.

(** Pulling records until [StopIteration], as a [for] loop over the store
    does after [__iter__].  Each record comes with the value
    [saved_timestamp] had when its [__next__] call started.  The outcome is
    [Ok tt] at end of stream, [None] only when [fuel] calls were not enough. *)
Fixpoint pull (fuel : nat) (db : CsvDB)
    : option (list (Z * dict) * result unit * CsvDB) :=
  match fuel with
  | O => None
  | S fuel' =>
      match __next__ db with
      | (Ok json, db') =>
          match pull fuel' db' with
          | Some (out, res, db'') =>
              Some ((saved_timestamp db, json) :: out, res, db'')
          | None => None
          end
      | (Raise StopIteration, db') => Some ([], Ok tt, db')
      | (Raise e, db') => Some ([], Raise e, db')
      end
  end.

End Store.

(** ** The write path *)

(** [save] runs over the store and the disk. *)
Record world : Type := {
  db : CsvDB;
  disk : filesystem
}.

Definition set_disk (fs : filesystem) (w : world) : world :=
  {| db := db w; disk := fs |}.

(** [sorted(list(set([key for key, _ in values.items()]) - set(KEYS_COMMON)))] *)
Definition group_columns (common : list string) (values : field_map)
    : list string :=
  merge_sort string_le
    (elements ((list_to_set values.*1 : gset string) ∖ list_to_set common)).

(** [header = KEYS_COMMON + sorted(...)] *)
Definition compute_header (common : list string) (values : field_map)
    : list string :=
  common ++ group_columns common values.

Fixpoint field_get (k : string) (values : field_map) : option string :=
  match values with
  | [] => None
  | (k', v) :: values' => if String.eqb k k' then Some v else field_get k values'
  end.

(** [csv.DictWriter(csvfile, header).writerow(values)]: a field of [values]
    that is not a column raises [ValueError]; a column without a value is
    written empty. *)
Definition writerow (header : list string) (values : field_map)
    : result record :=
  if forallb (λ k, bool_decide (k ∈ header)) values.*1
  then Ok ((λ k, default "" (field_get k values)) <$> header)
  else Raise ValueError.

(** [bool(reader.fieldnames)] *)
Definition truthy (names : option record) : bool :=
  match names with
  | Some (_ :: _) => true
  | _ => false
  end.

(** [serialized_report[k]] used as a [str] *)
Definition str_field (k : string) (report : dict) : result string :=
  match dict_get k report with
  | None => Raise KeyError
  | Some (VScalar s) => Ok s
  | Some (VDict _) => Raise TypeError
  end.

Section Writer.
Context `{ReportModel} `{Imports}.

(** The body of [for filename, values in data.items()] in [save]. *)
Definition save_group (rep_path : string) (group : string * field_map)
    : M world unit :=
  let rep_path_with_file := rep_path +:+ "/" +:+ group.1 +:+ ".csv" in
  let header := compute_header KEYS_COMMON group.2 in
  w <- get ;;
  header_exist <-
    match open_read (disk w) rep_path_with_file with
    | Raise FileNotFoundError => ret false
    | Raise e => raise e
    | Ok lines =>
        if decide (Some header = fieldnames lines)
        then ret (truthy (fieldnames lines))
        else raise HeaderAreNotTheSameError
    end ;;
  (if header_exist : bool then ret tt
   else modify (λ w, set_disk (append_lines rep_path_with_file [header] (disk w)) w)) ;;;
  row <- lift (writerow header group.2) ;;
  modify (λ w, set_disk (append_lines rep_path_with_file [row] (disk w)) w).

(** Allow to save a serialized_report in the db.  ([os.makedirs] makes
    directories only: it leaves the regular files as they are.) *)
Definition save (serialized_report : dict) : M world unit :=
  let data := to_csvdb serialized_report in
  w <- get ;;
  sensor <- lift (str_field "sensor" serialized_report) ;;
  target <- lift (str_field "target" serialized_report) ;;
  let rep_path := current_path (db w) +:+ sensor +:+ "-" +:+ target in
  for_each data (save_group rep_path).

(** Allow to save a batch of data *)
Definition save_many (serialized_reports : list dict) : M world unit :=
  for_each serialized_reports save.

End Writer.

(** ** The pusher's handlers *)

(** The messages the pusher receives: [StartMessage], a [PowerReport] with
    the dictionary its [serialize()] returns, or anything else. *)
Inductive message : Type :=
| StartMessage
| PowerReport (serialized : dict)
| OtherMessage.

(** The control messages the handlers send back. *)
Inductive control : Type :=
| OKMessage
| ErrorMessage (msg : string).

(** What [state.database.load()] does: it returns, raises [DBError(msg)],
    or raises something else. *)
Inductive load_result : Type :=
| Loaded
| DBError (msg : string)
| LoadRaise (e : exn).

(** The output database of the pusher, as far as the handlers use it. *)
Class Database (D : Type) : Type := {
  database_load : D → load_result * D;
  database_save : dict → M D unit
}.

(** The state of the actor.  [socket_interface] is the log of the control
    messages handed to [send_control], oldest first. *)
Record State (D : Type) : Type := {
  initialized : bool;
  alive : bool;
  database : D;
  socket_interface : list control
}.
Arguments initialized {D} _.
Arguments alive {D} _.
Arguments database {D} _.
Arguments socket_interface {D} _.

Section Handlers.
Context {D : Type} `{Database D}.

Definition set_initialized (b : bool) (state : State D) : State D :=
  {| initialized := b; alive := alive state; database := database state;
     socket_interface := socket_interface state |}.
Definition set_alive (b : bool) (state : State D) : State D :=
  {| initialized := initialized state; alive := b;
     database := database state;
     socket_interface := socket_interface state |}.
Definition set_database (d : D) (state : State D) : State D :=
  {| initialized := initialized state; alive := alive state; database := d;
     socket_interface := socket_interface state |}.

(** [state.socket_interface.send_control(m)] *)
Definition send_control (m : control) : M (State D) unit :=
  modify (λ state,
    {| initialized := initialized state; alive := alive state;
       database := database state;
       socket_interface := socket_interface state ++ [m] |}).

(** A method of [state.database] run from the handler. *)
Definition on_database {A} (m : M D A) : M (State D) A :=
  λ state,
    let '(r, d) := m (database state) in (r, set_database d state).

(** Initialize the output database *)
Definition StartHandler_handle (msg : message) : M (State D) unit :=
  state <- get ;;
  if initialized state then ret tt
  else
    match msg with
    | StartMessage =>
        match database_load (database state) with
        | (Loaded, d) =>
            modify (set_database d) ;;;
            modify (set_initialized true) ;;;
            send_control OKMessage
        | (DBError error_msg, d) =>
            modify (set_database d) ;;;
            send_control (ErrorMessage error_msg)
        | (LoadRaise e, d) =>
            modify (set_database d) ;;; raise e
        end
    | _ => ret tt
    end.

(** Save the msg in the database *)
Definition PowerHandler_handle (msg : message) : M (State D) unit :=
  match msg with
  | PowerReport serialized => on_database (database_save serialized)
  | _ => ret tt
  end.

(** Kill the actor by setting alive to False *)
Definition TimeoutHandler_handle (msg : message) : M (State D) unit :=
  modify (set_alive false).

End Handlers.

(** ** Concrete instances used in the examples *)

Definition digit_of (c : Ascii.ascii) : option Z :=
  let n := Z.of_N (Ascii.N_of_ascii c) in
  if (48 <=? n) && (n <=? 57) then Some (n - 48) else None.

Fixpoint decimal_from (acc : Z) (s : string) : option Z :=
  match s with
  | EmptyString => Some acc
  | String c s' =>
      match digit_of c with
      | Some d => decimal_from (10 * acc + d) s'
      | None => None
      end
  end.

(** [int] restricted to non-empty strings of ASCII digits, on which it
    agrees with Python's. *)
Definition int_decimal (s : string) : option Z :=
  match s with
  | EmptyString => None
  | _ => decimal_from 0 s
  end.

(** The conversion restricted to the timestamps from 0 to 100000000000,
    which a datetime can stand for whether they count seconds or
    milliseconds; on the others it raises [ValueError], as
    [datetime.fromtimestamp] does on a year out of range. *)
Definition timestamp_out_of_range (n : Z) : option exn :=
  if (0 <=? n) && (n <=? 100000000000) then None else Some ValueError.

(** The imports, with the common keys and the deep union of the spec, and
    datetimes represented by the number of milliseconds they stand for. *)
Definition py_imports : Imports :=
  {| KEYS_COMMON := KEYS_COMMON_spec;
     int := int_decimal;
     timestamp_to_datetime := λ n, n;
     timestamp_error := timestamp_out_of_range;
     epoch_converts := eq_refl;
     dict_merge := deep_union |}.

Definition text_of (c : option string) : string := default "" c.

(** A report model in the shape of the ones of powerapi: a row of the file
    [<group>.csv] is decoded into the common fields and, under the file
    name, the mapping of the other cells; a report is encoded into one
    group per entry of its ["groups"] mapping. *)
Definition demo_from_csvdb (fname : string) (row : csv_row) : dict :=
  [("timestamp", VScalar (text_of (default None (cells row !! "timestamp"))));
   ("groups",
    VDict [(fname,
            VDict ((λ kv, (kv.1, VScalar (text_of kv.2)))
                     <$> filter (λ kv, kv.1 ∉ KEYS_COMMON_spec)
                           (map_to_list (cells row))))])].

Definition scalar_fields (d : dict) : field_map :=
  omap (λ kv, match kv.2 with
              | VScalar s => Some (kv.1, s)
              | VDict _ => None
              end) d.

Definition demo_to_csvdb (report : dict) : list (string * field_map) :=
  match dict_get "groups" report with
  | Some (VDict groups) =>
      (λ g, (g.1,
             filter (λ kv, kv.1 ∈ KEYS_COMMON_spec) (scalar_fields report)
               ++ match g.2 with
                  | VDict fields => scalar_fields fields
                  | VScalar _ => []
                  end)) <$> groups
  | _ => []
  end.

Definition demo_model : ReportModel :=
  {| from_csvdb := demo_from_csvdb; to_csvdb := demo_to_csvdb |}.

(** A report model whose decoder keeps nothing of a row. *)
Definition silent_model : ReportModel :=
  {| from_csvdb := λ _ _, []; to_csvdb := demo_to_csvdb |}.

(** ** Stores, disks and reports of the examples *)

(** The store built by [CsvDB(report_model, "/d")]. *)
Definition demo_store : CsvDB :=
  {| filenames := []; current_path := "/d/"; tmp_read := ∅;
     saved_timestamp := 0 |}.

Definition report_of (timestamp : string) (groups : dict) : dict :=
  [("timestamp", VScalar timestamp); ("sensor", VScalar "s1");
   ("target", VScalar "t1"); ("groups", VDict groups)].

(** sensor s1, target t1, group pkg with the field set {power} *)
Definition power_report : dict :=
  report_of "5" [("pkg", VDict [("power", VScalar "3")])].

(** the same group with the field set {power, freq} *)
Definition power_freq_report : dict :=
  report_of "6" [("pkg", VDict [("power", VScalar "4"); ("freq", VScalar "9")])].

(** the rows the demo model makes of them *)
Definition power_fields : field_map :=
  [("timestamp", "5"); ("sensor", "s1"); ("target", "t1"); ("power", "3")].

(** a report that expands into the groups pkg and core *)
Definition two_group_report : dict :=
  report_of "5" [("pkg", VDict [("power", VScalar "3")]);
                 ("core", VDict [("load", VScalar "1")])].

(** a file that exists and holds nothing *)
Definition empty_file : file_node := {| readable := true; content := [] |}.

(** a file written earlier for the group core with the field set {temp} *)
Definition core_temp_file : file_node :=
  {| readable := true;
     content := [KEYS_COMMON_spec ++ ["temp"];
                 ["4"; "s1"; "t1"; ""; ""; "40"]] |}.

Definition power_header : record := KEYS_COMMON_spec ++ ["power"].

(** A.csv with rows at t=1,2 and B.csv with rows at t=1,3 *)
Definition file_A : file_node :=
  {| readable := true;
     content := [power_header;
                 ["1"; "s1"; "t1"; "0"; "0"; "10"];
                 ["2"; "s1"; "t1"; "0"; "0"; "20"]] |}.
Definition file_B : file_node :=
  {| readable := true;
     content := [power_header;
                 ["1"; "s1"; "t1"; "0"; "0"; "11"];
                 ["3"; "s1"; "t1"; "0"; "0"; "31"]] |}.

(** late.csv with a row at t=5, mixed.csv with rows at t=3,5 *)
Definition file_late : file_node :=
  {| readable := true;
     content := [power_header; ["5"; "s1"; "t1"; "0"; "0"; "50"]] |}.
Definition file_mixed : file_node :=
  {| readable := true;
     content := [power_header;
                 ["3"; "s1"; "t1"; "0"; "0"; "31"];
                 ["5"; "s1"; "t1"; "0"; "0"; "51"]] |}.

(** a file that holds its header line and no row *)
Definition header_only_file : file_node :=
  {| readable := true; content := [power_header] |}.

(** a file the process may not read *)
Definition unreadable_file : file_node :=
  {| readable := false; content := content file_A |}.

Definition demo_disk : filesystem :=
  <["/d/A.csv" := file_A]> (<["/d/B.csv" := file_B]>
    (<["/d/late.csv" := file_late]> (<["/d/mixed.csv" := file_mixed]>
      (<["/d/empty.csv" := empty_file]> (<["/d/header.csv" := header_only_file]>
        (<["/d/secret.csv" := unreadable_file]> ∅)))))).

(** The demo store after [add_files(names)]. *)
Definition store_with (names : list string) : CsvDB :=
  (add_files names demo_store).2.

Definition world_of (fs : filesystem) : world :=
  {| db := demo_store; disk := fs |}.

(** ** Vocabulary of the statements *)

Section Vocabulary.
Context `{ReportModel} `{Imports}.

(** The file [save] writes a group to. *)
Definition group_path (rep_path : string) (group : string * field_map)
    : string :=
  rep_path +:+ "/" +:+ group.1 +:+ ".csv".

(** The data row [save] appends for a field map. *)
Definition row_for (values : field_map) : record :=
  (λ k, default "" (field_get k values)) <$> compute_header KEYS_COMMON values.

(** What the loops of [connect] leave alone: the registered names, the
    base path, the watermark and the set of paths that have an entry. *)
Definition outline (db : CsvDB) : list string * string * Z * gset string :=
  (filenames db, current_path db, saved_timestamp db, dom (tmp_read db)).

(** The entry of [path] once [connect] has opened it on a file holding
    [lines]: the first row is the lookahead, the others are in the reader. *)
Definition primed (path : string) (lines : list record) : entry :=
  of_stream (DictReader lines)
    {| next_line := Unprimed; reader := None;
       file := Some {| name := path; closed := false |} |}.

(** [connect] gets through the file at [path]: it opens and its first row
    holds the common keys. *)
Definition primes (fs : filesystem) (path : string) : Prop :=
  ∃ lines, open_read fs path = Ok lines
           ∧ check_common_keys KEYS_COMMON (next_line (primed path lines)) = Ok tt.

(** The store once [saved_timestamp] was assigned, if it was. *)
Definition store_saved (saved : option Z) (db : CsvDB) : CsvDB :=
  match saved with
  | Some t => set_saved_timestamp t db
  | None => db
  end.

(** The entry holds [stream]: its lookahead is the first row of [stream]
    and its reader, on an open file, will produce the others. *)
Definition holds (e : entry) (stream : list csv_row) : Prop :=
  match stream with
  | [] => next_line e = Exhausted
  | row :: rows => next_line e = Row row ∧ reader_rows e = Ok rows
  end.

(** The rows a fresh reader produces from the file at [path]. *)
Definition rows_of (fs : filesystem) (path : string) : list csv_row :=
  match open_read fs path with
  | Ok lines => DictReader lines
  | Raise _ => []
  end.

Definition has_timestamp (row : csv_row) : Prop :=
  ∃ t, row_timestamp row = Ok t.

(** The timestamp of a row that has one. *)
Definition time_of (row : csv_row) : Z :=
  match row_timestamp row with
  | Ok t => t
  | Raise _ => 0
  end.

(** [int(row['timestamp'])], the timestamp as written in the file. *)
Definition raw_timestamp (row : csv_row) : Z :=
  match cells row !! "timestamp" with
  | Some (Some s) => default 0 (int s)
  | _ => 0
  end.

(** A stream in ascending order of timestamp. *)
Definition ascending (stream : list csv_row) : Prop :=
  StronglySorted (λ a b, time_of a ≤ time_of b) stream.

Definition rows_at (T : Z) (stream : list csv_row) : list csv_row :=
  filter (λ row, time_of row = T) stream.

Definition rows_after (T : Z) (stream : list csv_row) : list csv_row :=
  filter (λ row, T < time_of row) stream.

(** The rows of one file merged, each decoded under the file's base name,
    into [json]. *)
Definition merge_rows (fname : string) (rows : list csv_row) (json : dict)
    : dict :=
  fold_left (λ json row, dict_merge json (from_csvdb fname row)) rows json.

(** The rows at [T] of the files [paths] merged into [json], file after
    file in the order of [paths]. *)
Definition merge_files (T : Z) (streams : string → list csv_row)
    (paths : list string) (json : dict) : dict :=
  fold_left (λ json p, merge_rows (basename p) (rows_at T (streams p)) json)
            paths json.

(** The deep union of the decoded rows with timestamp [T] of the files
    [paths], file after file in the order of [paths], row after row. *)
Definition merged_record (streams : string → list csv_row)
    (paths : list string) (T : Z) : dict :=
  merge_files T streams paths [].

(** The sorted set of the distinct timestamps of a stream. *)
Definition timestamps (stream : list csv_row) : list Z :=
  merge_sort Z.le (remove_dups (time_of <$> stream)).

(** The watermark moved, within a step started at [T] from [db0], only
    forward and only to the timestamp of the lookahead row of the first
    registered file. *)
Definition advanced (T : Z) (db0 db : CsvDB) : Prop :=
  filenames db = filenames db0
  ∧ (saved_timestamp db = saved_timestamp db0
     ∨ (T < saved_timestamp db
        ∧ ∃ p e row,
            head (filenames db) = Some p
            ∧ tmp_read db !! p = Some e
            ∧ next_line e = Row row
            ∧ row_timestamp row = Ok (saved_timestamp db))).

(** Every path of [paths] has an entry that holds its stream. *)
Definition tracks (db : CsvDB) (streams : string → list csv_row)
    (paths : list string) : Prop :=
  ∀ p, p ∈ paths → ∃ e, tmp_read db !! p = Some e ∧ holds e (streams p).

(** The streams of [paths] have timestamps and are in ascending order. *)
Definition regular (streams : string → list csv_row) (paths : list string)
    : Prop :=
  ∀ p, p ∈ paths → Forall has_timestamp (streams p) ∧ ascending (streams p).

(** The streams once the files [paths] went through a step at [T]. *)
Definition step_streams (T : Z) (paths : list string)
    (streams : string → list csv_row) : string → list csv_row :=
  λ p, if decide (p ∈ paths) then rows_after T (streams p) else streams p.

(** Every registered file has an entry with a usable reader: the entry is
    exhausted, or has a row ahead and a reader that can be advanced. *)
Definition usable (db : CsvDB) : Prop :=
  ∀ p, p ∈ filenames db →
       ∃ e stream, tmp_read db !! p = Some e ∧ holds e stream.

(** The rows an entry can still give to a step: its lookahead row and the
    rows left in its reader. *)
Definition pending (e : entry) : nat :=
  match next_line e with
  | Row _ => S (length (default [] (reader e)))
  | _ => O
  end.

(** The rows all the entries of the store can still give. *)
Definition backlog (db : CsvDB) : nat :=
  map_fold (λ _ e n, (pending e + n)%nat) O (tmp_read db).

(** The path [add_file] registers for [filename]: the name itself when it
    starts with a slash, the name under the base path otherwise. *)
Definition resolve (base : string) (filename : string) : string :=
  match filename with
  | String c _ => if Ascii.eqb c "/"%char then filename else base +:+ filename
  | EmptyString => filename
  end.

(** The entry [add_file] makes for a path. *)
Definition fresh_entry : entry :=
  {| next_line := Unprimed; reader := None; file := None |}.

(** Every registered name has its entry. *)
Definition registered (db : CsvDB) : Prop :=
  ∀ p, p ∈ filenames db → is_Some (tmp_read db !! p).

(** Every registered file has an entry that holds a stream of rows with
    timestamps. *)
Definition timed (db : CsvDB) : Prop :=
  ∀ p, p ∈ filenames db →
       ∃ e stream, tmp_read db !! p = Some e ∧ holds e stream
                   ∧ Forall has_timestamp stream.

(** Nothing is left to merge at the watermark or after it in the first
    file: every registered file is exhausted, or is not the first one and
    has its lookahead row after the watermark. *)
Definition drained (db : CsvDB) : Prop :=
  ∀ p, p ∈ filenames db →
       ∃ e, tmp_read db !! p = Some e
            ∧ (next_line e = Exhausted
               ∨ ∃ row t, next_line e = Row row
                          ∧ row_timestamp row = Ok t
                          ∧ saved_timestamp db < t
                          ∧ head (filenames db) ≠ Some p).

(** The store after [n] calls of [__next__], whatever they return. *)
Definition steps (n : nat) (db : CsvDB) : CsvDB :=
  Nat.iter n (λ db, (__next__ db).2) db.

(** The [PowerReport] messages of a sequence, serialized. *)
Definition power_reports (msgs : list message) : list dict :=
  omap (λ msg, match msg with
               | PowerReport serialized => Some serialized
               | _ => None
               end) msgs.

(** The text a cell of the column [k] gets for a field map. *)
Definition cell_for (values : field_map) (k : string) : string :=
  default "" (field_get k values).


(** The disk [fs'] holds what [fs] held and perhaps more: every file of
    [fs] is in [fs'], as readable as it was, with the lines it had followed
    by lines appended. *)
Definition extends (fs fs' : filesystem) : Prop :=
  ∀ p f, fs !! p = Some f →
         ∃ f' more, fs' !! p = Some f'
                    ∧ readable f' = readable f
                    ∧ content f' = content f ++ more.

(** The entry of [p] has nothing left at the timestamp [T] or before it:
    it is exhausted, or its lookahead row is after [T]. *)
Definition settled (T : Z) (db : CsvDB) (p : string) : Prop :=
  ∃ e, tmp_read db !! p = Some e
       ∧ (next_line e = Exhausted
          ∨ ∃ row t, next_line e = Row row ∧ row_timestamp row = Ok t ∧ T < t).



End Vocabulary.

(** * Verification *)

(** ** Loops and sequencing *)

Section MonadFacts.
Context {S : Type}.

Lemma bind_ok {A B} (m : M S A) (k : A → M S B) s a s' :
  m s = (Ok a, s') → bind m k s = k a s'.
Proof. unfold bind. by intros ->. Qed.

Lemma bind_raise {A B} (m : M S A) (k : A → M S B) s e s' :
  m s = (Raise e, s') → bind m k s = (Raise e, s').
Proof. unfold bind. by intros ->. Qed.

Lemma for_each_app {A} (l1 l2 : list A) (body : A → M S unit) s s1 :
  for_each l1 body s = (Ok tt, s1) →
  for_each (l1 ++ l2) body s = for_each l2 body s1.
Proof.
  revert s. induction l1 as [|x l1 IH]; intros s; simpl.
  - unfold ret. by intros [= ->].
  - unfold bind. destruct (body x s) as [[[]|e] s2]; [apply IH | done].
Qed.

Lemma for_each_raise {A} (l : list A) (body : A → M S unit) s e s' :
  for_each l body s = (Raise e, s') →
  ∃ done x rest s1,
    l = done ++ x :: rest
    ∧ for_each done body s = (Ok tt, s1)
    ∧ body x s1 = (Raise e, s').
Proof.
  revert s. induction l as [|x l IH]; intros s; simpl; [done |].
  unfold bind at 1. destruct (body x s) as [[[]|e1] s2] eqn:Hx.
  - intros (done & y & rest & s1 & -> & Hdone & Hy)%IH.
    exists (x :: done), y, rest, s1. split; [done |]. split; [| done].
    simpl. by rewrite (bind_ok _ _ _ _ _ Hx).
  - intros [= -> ->]. by exists [], x, l, s.
Qed.

(** A loop whose body keeps a part of the state keeps it. *)
Lemma for_each_frame {A X} (f : S → X) (l : list A) (body : A → M S unit) :
  (∀ x s, f (body x s).2 = f s) →
  ∀ s, f (for_each l body s).2 = f s.
Proof.
  intros Hbody. induction l as [|x l IH]; intros s; simpl; [done |].
  unfold bind. specialize (Hbody x s).
  destruct (body x s) as [[[]|e] s2]; simpl in *; [| done].
  by rewrite IH.
Qed.

End MonadFacts.

(** ** The order on strings *)

Lemma string_le_iff a b : string_le a b ↔ a = b ∨ String_as_OT.lt a b.
Proof.
  unfold string_le, string_leb.
  destruct (String_as_OT.compare_spec a b) as [Heq|Hlt|Hgt]; simpl.
  - split; [intros _; by left | done].
  - split; [intros _; by right | done].
  - split; [done |].
    intros [->|Hlt].
    + by apply (irreflexivity String_as_OT.lt) in Hgt.
    + exfalso. apply (irreflexivity String_as_OT.lt a). by etrans.
Qed.

#[global] Instance string_le_total : Total string_le.
Proof.
  intros a b. rewrite !string_le_iff.
  destruct (String_as_OT.compare_spec a b);
    unfold String_as_OT.eq in *; naive_solver.
Qed.

#[global] Instance string_le_trans : Transitive string_le.
Proof.
  intros a b c. rewrite !string_le_iff.
  intros [->|H1] [->|H2]; auto. right. by etrans.
Qed.

#[global] Instance string_le_antisym : AntiSymm (=) string_le.
Proof.
  intros a b. rewrite !string_le_iff.
  intros [->|H1] [Heq|H2]; auto.
  exfalso. apply (irreflexivity String_as_OT.lt a). by etrans.
Qed.

(** ** The computed header *)

Section Header.
Implicit Types (common : list string) (values : field_map).

Lemma compute_header_split common values :
  compute_header common values = common ++ group_columns common values.
Proof. reflexivity. Qed.

Lemma elem_of_group_columns common values k :
  k ∈ group_columns common values ↔ k ∈ values.*1 ∧ k ∉ common.
Proof.
  unfold group_columns. rewrite merge_sort_Permutation, elem_of_elements.
  set_solver.
Qed.

Lemma group_columns_sorted common values :
  StronglySorted string_le (group_columns common values).
Proof. apply StronglySorted_merge_sort; apply _. Qed.

Lemma group_columns_NoDup common values :
  NoDup (group_columns common values).
Proof.
  unfold group_columns. rewrite merge_sort_Permutation. apply NoDup_elements.
Qed.

Lemma elem_of_compute_header common values k :
  k ∈ compute_header common values ↔ k ∈ common ∨ k ∈ values.*1.
Proof.
  rewrite compute_header_split, elem_of_app, elem_of_group_columns.
  destruct (decide (k ∈ common)); tauto.
Qed.

(** The header is a function of the set of field names alone. *)
Lemma compute_header_keys common values values' :
  (∀ k, k ∈ values.*1 ↔ k ∈ values'.*1) →
  compute_header common values = compute_header common values'.
Proof.
  intros Hkeys. unfold compute_header, group_columns.
  assert ((list_to_set values.*1 : gset string) = list_to_set values'.*1)
    as ->; [| done].
  apply set_eq. intros k. rewrite !elem_of_list_to_set. apply Hkeys.
Qed.

(** The sorted columns are the only strictly ascending arrangement of the
    non-common field names. *)
Lemma group_columns_unique common values l :
  StronglySorted string_le l → NoDup l →
  (∀ k, k ∈ l ↔ k ∈ values.*1 ∧ k ∉ common) →
  l = group_columns common values.
Proof.
  intros Hsorted Hnodup Helem.
  apply (StronglySorted_unique string_le); [done | apply group_columns_sorted |].
  apply NoDup_Permutation; [done | apply group_columns_NoDup |].
  intros k. by rewrite Helem, elem_of_group_columns.
Qed.

(** [writerow] never rejects the row [save] hands it: every field of the
    row is a column of the computed header. *)
Lemma writerow_compute_header common values :
  writerow (compute_header common values) values
  = Ok ((λ k, default "" (field_get k values)) <$> compute_header common values).
Proof.
  unfold writerow.
  replace (forallb _ _) with true; [done |].
  symmetry. apply forallb_forall. intros k Hk.
  apply bool_decide_eq_true, elem_of_compute_header. right.
  by apply list_elem_of_In.
Qed.

End Header.

(** C7. The header computed for a group, with the common keys of the spec,
    is the literal prefix timestamp, sensor, target, socket, cpu followed by
    the field map's non-common keys in strictly ascending order (sorted, each
    once); it is the same for any two field maps with the same keys, in
    whatever order they were produced. *)
Theorem header_format (values : field_map) :
  ∃ columns : list string,
    compute_header KEYS_COMMON_spec values
    = ["timestamp"; "sensor"; "target"; "socket"; "cpu"] ++ columns
    ∧ StronglySorted string_le columns
    ∧ NoDup columns
    ∧ (∀ k, k ∈ columns ↔
            k ∈ values.*1
            ∧ k ∉ ["timestamp"; "sensor"; "target"; "socket"; "cpu"])
    ∧ (∀ values' : field_map,
         values'.*1 ≡ₚ values.*1 →
         compute_header KEYS_COMMON_spec values'
         = compute_header KEYS_COMMON_spec values).
Proof.
  exists (group_columns KEYS_COMMON_spec values).
  split; [reflexivity |].
  split; [apply group_columns_sorted |].
  split; [apply group_columns_NoDup |].
  split; [intros k; apply elem_of_group_columns |].
  intros values' Hperm. apply compute_header_keys.
  intros k. by rewrite Hperm.
Qed.

(** ** Writing a group *)

Lemma append_lines_lookup path lines fs :
  ∃ f, append_lines path lines fs !! path = Some f
       ∧ content f = from_option content [] (fs !! path) ++ lines
       ∧ readable f = from_option readable true (fs !! path).
Proof.
  unfold append_lines. destruct (fs !! path) as [f|] eqn:Hf;
    rewrite lookup_insert_eq; eauto.
Qed.

Lemma append_lines_lookup_ne path path' lines fs :
  path ≠ path' → append_lines path lines fs !! path' = fs !! path'.
Proof.
  intros Hne. unfold append_lines.
  destruct (fs !! path); by rewrite lookup_insert_ne.
Qed.

Lemma append_lines_twice path l1 l2 fs :
  append_lines path l2 (append_lines path l1 fs)
  = append_lines path (l1 ++ l2) fs.
Proof.
  unfold append_lines.
  destruct (fs !! path) as [f|] eqn:Hf; rewrite lookup_insert_eq; simpl;
    rewrite insert_insert_eq; [| done].
  by rewrite <- (assoc_L (++)).
Qed.

Section WriterFacts.
Context `{ReportModel} `{Imports}.

Lemma save_group_eq rep_path g w :
  save_group rep_path g w =
  let header := compute_header KEYS_COMMON g.2 in
  match disk w !! group_path rep_path g with
  | None =>
      (Ok tt, set_disk (append_lines (group_path rep_path g)
                                     [header; row_for g.2] (disk w)) w)
  | Some f =>
      if readable f then
        if decide (Some header = fieldnames (content f)) then
          (Ok tt,
           set_disk (append_lines (group_path rep_path g)
                       (if truthy (fieldnames (content f))
                        then [row_for g.2] else [header; row_for g.2])
                       (disk w)) w)
        else (Raise HeaderAreNotTheSameError, w)
      else (Raise PermissionError, w)
  end.
Proof.
  unfold save_group, group_path, row_for. cbv zeta.
  unfold bind at 1. unfold get at 1. simpl.
  unfold open_read.
  destruct (disk w !! _) as [f|] eqn:Hf.
  - destruct (readable f).
    + destruct (decide _) as [Hh|Hh].
      * unfold bind at 1, ret at 1.
        destruct (truthy _).
        -- unfold bind at 1, ret at 1. rewrite writerow_compute_header.
           unfold bind, lift, modify. done.
        -- unfold bind at 1, modify at 1. rewrite writerow_compute_header.
           unfold bind, lift, modify. simpl. by rewrite append_lines_twice.
      * done.
    + done.
  - unfold bind at 1, ret at 1. unfold bind at 1, modify at 1.
    rewrite writerow_compute_header.
    unfold bind, lift, modify. simpl. by rewrite append_lines_twice.
Qed.
Lemma save_group_db rep_path g w : db (save_group rep_path g w).2 = db w.
Proof. rewrite save_group_eq. cbv zeta. by repeat case_match. Qed.

(** A group that raises has written nothing. *)
Lemma save_group_raise rep_path g w e w' :
  save_group rep_path g w = (Raise e, w') → w' = w.
Proof. rewrite save_group_eq. cbv zeta. repeat case_match; congruence. Qed.




Lemma str_field_raise k report e :
  str_field k report = Raise e → e = KeyError ∨ e = TypeError.
Proof. unfold str_field. repeat case_match; naive_solver. Qed.

Lemma save_eq report w :
  save report w =
  match str_field "sensor" report with
  | Raise e => (Raise e, w)
  | Ok sensor =>
      match str_field "target" report with
      | Raise e => (Raise e, w)
      | Ok target =>
          for_each (to_csvdb report)
            (save_group (current_path (db w) +:+ sensor +:+ "-" +:+ target)) w
      end
  end.
Proof.
  unfold save, bind, get, lift.
  destruct (str_field "sensor" report); [| done].
  by destruct (str_field "target" report).
Qed.

Lemma save_db report w : db (save report w).2 = db w.
Proof.
  rewrite save_eq. repeat case_match; try done.
  apply (for_each_frame db). intros g s. apply save_group_db.
Qed.

(** A file that exists and holds nothing: the header is compared with
    [None], the group raises and the file stays empty. *)
Lemma save_group_empty_file rep_path g w f :
  disk w !! group_path rep_path g = Some f →
  readable f = true → content f = [] →
  save_group rep_path g w = (Raise HeaderAreNotTheSameError, w).
Proof.
  intros Hf Hr Hc. rewrite save_group_eq. cbv zeta. by rewrite Hf, Hr, Hc.
Qed.


End WriterFacts.

(** ** The write path: what save guarantees *)

Section WriterProperties.
Context `{ReportModel} `{Imports}.

(** C10. [save], whether it returns or raises, leaves the read-path state of
    the store as it was: the registered file list, every per-file entry
    (reader, file handle and lookahead row) and the current watermark. *)
Theorem save_keeps_read_state (report : dict) (w : world) :
  filenames (db (save report w).2) = filenames (db w)
  ∧ tmp_read (db (save report w).2) = tmp_read (db w)
  ∧ saved_timestamp (db (save report w).2) = saved_timestamp (db w)
  ∧ db (save report w).2 = db w.
Proof. by rewrite save_db. Qed.

(** C2, as amended.  When [save] raises [HeaderAreNotTheSameError], the
    group whose header did not match has written nothing, neither have the
    groups after it: the disk is the one left by the groups written before
    it in the same call.  It is the disk of before the call when the failing
    group is the first one, so whenever the record expands into one group. *)
Theorem save_header_mismatch (report : dict) (w : world) :
  (save report w).1 = Raise HeaderAreNotTheSameError →
  ∃ rep_path written failing rest,
    to_csvdb report = written ++ failing :: rest
    ∧ for_each written (save_group rep_path) w = (Ok tt, (save report w).2)
    ∧ save_group rep_path failing (save report w).2
      = (Raise HeaderAreNotTheSameError, (save report w).2)
    ∧ (written = [] → (save report w).2 = w)
    ∧ ((length (to_csvdb report) ≤ 1)%nat → (save report w).2 = w).
Proof.
  rewrite save_eq.
  destruct (str_field "sensor" report) as [sensor|e] eqn:Hsensor;
    [| by apply str_field_raise in Hsensor as [-> | ->]].
  destruct (str_field "target" report) as [target|e] eqn:Htarget;
    [| by apply str_field_raise in Htarget as [-> | ->]].
  set (rep_path := current_path (db w) +:+ sensor +:+ "-" +:+ target).
  destruct (for_each _ _ w) as [res w'] eqn:Hloop. simpl. intros ->.
  apply for_each_raise in Hloop
    as (written & failing & rest & w1 & Hdata & Hwritten & Hfail).
  assert (w' = w1) as -> by (by eapply save_group_raise).
  exists rep_path, written, failing, rest.
  split; [done |]. split; [done |]. split; [done |].
  assert (written = [] → w1 = w) as Hnil.
  { intros ->. simpl in Hwritten. unfold ret in Hwritten. congruence. }
  split; [done |].
  intros Hlen. apply Hnil. rewrite Hdata, length_app in Hlen.
  destruct written; [done | simpl in Hlen; lia].
Qed.



End WriterProperties.



(** A record with one group whose file holds another header: the call
    raises and the disk is as before. *)
Lemma save_header_mismatch_witness :
  let w1 := (@save demo_model py_imports power_report (world_of ∅)).2 in
  (@save demo_model py_imports power_freq_report w1).1
  = Raise HeaderAreNotTheSameError
  ∧ (@save demo_model py_imports power_freq_report w1).2 = w1.
Proof.
  cbv zeta.
  assert ((@save demo_model py_imports power_freq_report
             (@save demo_model py_imports power_report (world_of ∅)).2).1
          = Raise HeaderAreNotTheSameError) as Hraise
    by (vm_compute; reflexivity).
  split; [exact Hraise |].
  destruct (@save_header_mismatch demo_model py_imports power_freq_report
              _ Hraise) as (_ & _ & _ & _ & _ & _ & _ & _ & Hone).
  apply Hone. vm_compute. lia.
Defined.

(** C2, as stated, fails: the record expands into pkg and core, the file of
    core holds another header; [save] raises [HeaderAreNotTheSameError] after
    the header line and the row of pkg were written. *)
Lemma save_header_mismatch_partial_write :
  let w := world_of (<["/d/s1-t1/core.csv" := core_temp_file]> ∅) in
  let w' := (@save demo_model py_imports two_group_report w).2 in
  (@save demo_model py_imports two_group_report w).1
  = Raise HeaderAreNotTheSameError
  ∧ disk w !! "/d/s1-t1/pkg.csv" = None
  ∧ disk w' !! "/d/s1-t1/pkg.csv"
    = Some {| readable := true;
              content := [KEYS_COMMON_spec ++ ["power"];
                          ["5"; "s1"; "t1"; ""; ""; "3"]] |}
  ∧ disk w' ≠ disk w.
Proof.
  cbv zeta. split; [vm_compute; reflexivity |].
  split; [vm_compute; reflexivity |].
  split; [vm_compute; reflexivity |].
  intros Heq.
  apply (f_equal (λ fs : filesystem, fs !! "/d/s1-t1/pkg.csv")) in Heq.
  vm_compute in Heq. discriminate Heq.
Qed.

(** C4, the failing case: the file of the group exists and holds nothing
    (no header line, no row).  [save] raises [HeaderAreNotTheSameError]
    and writes neither the header line nor the row. *)
Theorem save_into_empty_file :
  let w := world_of (<["/d/s1-t1/pkg.csv" := empty_file]> ∅) in
  @save demo_model py_imports power_report w
  = (Raise HeaderAreNotTheSameError, w).
Proof. vm_compute. reflexivity. Qed.

(** ** Monadic code, step by step *)

Ltac mred := cbv beta iota zeta delta [bind ret raise get modify lift].

(** ** Entries of the store *)

Lemma set_tmp_read_id db : set_tmp_read (tmp_read db) db = db.
Proof. by destruct db. Qed.

Lemma get_entry_some path db e :
  tmp_read db !! path = Some e → get_entry path db = (Ok e, db).
Proof. unfold get_entry, bind, get, ret. by intros ->. Qed.

Lemma get_entry_none path db :
  tmp_read db !! path = None → get_entry path db = (Raise KeyError, db).
Proof. unfold get_entry, bind, get, raise. by intros ->. Qed.

Lemma update_entry_some path f db e :
  tmp_read db !! path = Some e →
  update_entry path f db
  = (Ok tt, set_tmp_read (<[path := f e]> (tmp_read db)) db).
Proof.
  intros He. unfold update_entry, bind. by rewrite (get_entry_some _ _ _ He).
Qed.

Lemma update_entry_none path f db :
  tmp_read db !! path = None → update_entry path f db = (Raise KeyError, db).
Proof.
  intros He. unfold update_entry, bind. by rewrite (get_entry_none _ _ He).
Qed.

Lemma of_stream_of_stream s1 s2 e : of_stream s1 (of_stream s2 e) = of_stream s1 e.
Proof. by destruct s1, s2. Qed.

Lemma file_of_stream s e : file (of_stream s e) = file e.
Proof. by destruct s. Qed.

Section ConnectFacts.
Context `{ReportModel} `{Imports}.

Lemma open_and_prime_eq fs p db :
  open_and_prime fs p db =
  match open_read fs p with
  | Raise FileNotFoundError => (Raise CsvBadFilePathError, db)
  | Raise e => (Raise e, db)
  | Ok lines =>
      match tmp_read db !! p with
      | None => (Raise KeyError, db)
      | Some _ =>
          (check_common_keys KEYS_COMMON (next_line (primed p lines)),
           set_tmp_read (<[p := primed p lines]> (tmp_read db)) db)
      end
  end.
Proof.
  unfold open_and_prime.
  destruct (open_read fs p) as [lines|e]; [| by destruct e].
  destruct (tmp_read db !! p) as [e|] eqn:He.
  - mred. rewrite (update_entry_some _ _ _ _ He). mred.
    erewrite update_entry_some by (simpl; apply lookup_insert_eq).
    simpl. rewrite insert_insert_eq. unfold _next. mred.
    erewrite get_entry_some by (simpl; apply lookup_insert_eq).
    unfold reader_rows. simpl. unfold primed.
    destruct (DictReader lines) as [|row rows] eqn:Hrows; mred.
    + erewrite update_entry_some by (simpl; apply lookup_insert_eq).
      simpl. rewrite insert_insert_eq.
      erewrite get_entry_some by (simpl; apply lookup_insert_eq).
      done.
    + erewrite update_entry_some by (simpl; apply lookup_insert_eq).
      simpl. rewrite insert_insert_eq.
      erewrite update_entry_some by (simpl; apply lookup_insert_eq).
      simpl. rewrite insert_insert_eq.
      erewrite get_entry_some by (simpl; apply lookup_insert_eq).
      done.
  - mred. by rewrite (update_entry_none _ _ _ He).
Qed.

Lemma close_if_open_eq p db :
  close_if_open p db =
  match tmp_read db !! p with
  | None => (Raise KeyError, db)
  | Some e =>
      (Ok tt,
       match file e with
       | Some f =>
           set_tmp_read
             (<[p := set_file (Some {| name := name f; closed := true |}) e]>
                (tmp_read db)) db
       | None => db
       end)
  end.
Proof.
  unfold close_if_open.
  destruct (tmp_read db !! p) as [e|] eqn:He; mred.
  - rewrite (get_entry_some _ _ _ He).
    destruct (file e); [| done]. by rewrite (update_entry_some _ _ _ _ He).
  - by rewrite (get_entry_none _ _ He).
Qed.

Lemma close_if_open_outline p db : outline (close_if_open p db).2 = outline db.
Proof.
  rewrite close_if_open_eq. destruct (tmp_read db !! p) as [e|] eqn:He; [| done].
  simpl. destruct (file e); [| done].
  unfold outline. simpl. f_equal. by apply dom_insert_lookup_L.
Qed.

Lemma open_and_prime_outline fs p db :
  outline (open_and_prime fs p db).2 = outline db.
Proof.
  rewrite open_and_prime_eq. destruct (open_read fs p) as [lines|e].
  - destruct (tmp_read db !! p) as [e|] eqn:He; [| done].
    unfold outline. simpl. f_equal. by apply dom_insert_lookup_L.
  - by destruct e.
Qed.

Lemma close_loop_ok l db :
  (∀ p, p ∈ l → is_Some (tmp_read db !! p)) →
  ∃ db', for_each l close_if_open db = (Ok tt, db') ∧ outline db' = outline db.
Proof.
  revert db. induction l as [|x l IH]; intros db Hl; simpl.
  - by exists db.
  - pose proof (close_if_open_outline x db) as Hout.
    destruct (Hl x) as [e He]; [by left |]. unfold bind.
    destruct (close_if_open x db) as [[[]|e1] db1] eqn:Hx; simpl in Hout.
    + destruct (IH db1) as (db' & Hloop & Hout').
      { intros p Hp. apply elem_of_dom.
        assert (dom (tmp_read db1) = dom (tmp_read db)) as ->
          by (by injection Hout).
        apply elem_of_dom, Hl. by right. }
      exists db'. split; [done |]. by rewrite Hout'.
    + by rewrite close_if_open_eq, He in Hx.
Qed.

(** The loop that opens the files, when it gets through all of them. *)
Lemma prime_loop_ok fs l db db' :
  for_each l (open_and_prime fs) db = (Ok tt, db') →
  outline db' = outline db
  ∧ (∀ p, p ∈ l →
       ∃ lines, open_read fs p = Ok lines
                ∧ tmp_read db' !! p = Some (primed p lines)
                ∧ check_common_keys KEYS_COMMON (next_line (primed p lines))
                  = Ok tt)
  ∧ (∀ p, p ∉ l → tmp_read db' !! p = tmp_read db !! p).
Proof.
  revert db. induction l as [|x l IH]; intros db; simpl.
  - unfold ret. intros [= <-]. split; [done |]. split; [| done].
    intros p Hp. by apply elem_of_nil in Hp.
  - unfold bind.
    pose proof (open_and_prime_outline fs x db) as Hout.
    destruct (open_and_prime fs x db) as [[[]|e] db1] eqn:Hx; [| done].
    rewrite open_and_prime_eq in Hx.
    destruct (open_read fs x) as [lines|e] eqn:Hopen; [| by destruct e].
    destruct (tmp_read db !! x) as [ex|] eqn:Hex; [| done].
    injection Hx as Hcheck <-.
    intros (Hout' & Hin & Hnotin)%IH. simpl in Hout.
    split; [by rewrite Hout' |]. split.
    + intros p [->|Hp]%elem_of_cons.
      * destruct (decide (x ∈ l)) as [Hpl|Hpl]; [by apply Hin |].
        exists lines. rewrite (Hnotin _ Hpl). simpl.
        by rewrite lookup_insert_eq.
      * by apply Hin.
    + intros p [Hne Hp]%not_elem_of_cons.
      rewrite (Hnotin _ Hp). simpl. by rewrite lookup_insert_ne.
Qed.

(** The loop gets through files that open and hold the common keys. *)
Lemma prime_loop_primes fs l db :
  (∀ p, p ∈ l → is_Some (tmp_read db !! p)) →
  Forall (primes fs) l →
  ∃ db', for_each l (open_and_prime fs) db = (Ok tt, db')
         ∧ outline db' = outline db.
Proof.
  revert db. induction l as [|x l IH]; intros db Hl Hprimes; simpl.
  - by exists db.
  - apply Forall_cons in Hprimes as [(lines & Hopen & Hcheck) Hprimes].
    pose proof (open_and_prime_outline fs x db) as Hout.
    destruct (Hl x) as [e He]; [by left |]. unfold bind.
    destruct (open_and_prime fs x db) as [[[]|e1] db1] eqn:Hx; simpl in Hout.
    + destruct (IH db1) as (db' & Hloop & Hout'); [| done |].
      { intros p Hp. apply elem_of_dom.
        assert (dom (tmp_read db1) = dom (tmp_read db)) as ->
          by (by injection Hout).
        apply elem_of_dom, Hl. by right. }
      exists db'. split; [done |]. by rewrite Hout'.
    + by rewrite open_and_prime_eq, Hopen, He, Hcheck in Hx.
Qed.



End ConnectFacts.

(** ** connect *)

Section Connect.
Context `{ReportModel} `{Imports}.

Lemma connect_eq fs db :
  connect fs db =
  match for_each (filenames db) close_if_open db with
  | (Raise e, db1) => (Raise e, db1)
  | (Ok _, db1) =>
      match for_each (filenames db) (open_and_prime fs) db1 with
      | (Raise e, db2) => (Raise e, db2)
      | (Ok _, db2) =>
          match filenames db with
          | [] => (Ok tt, db2)
          | first :: _ =>
              match tmp_read db2 !! first with
              | None => (Raise KeyError, db2)
              | Some e =>
                  match lookahead_timestamp (next_line e) with
                  | Ok t => (Ok tt, set_saved_timestamp t db2)
                  | Raise x => (Raise x, db2)
                  end
              end
          end
      end
  end.
Proof.
  unfold connect. mred.
  destruct (for_each _ close_if_open db) as [[[]|e1] db1]; [| done].
  destruct (for_each _ (open_and_prime fs) db1) as [[[]|e2] db2]; [| done].
  destruct (filenames db) as [|first others]; [done |].
  destruct (tmp_read db2 !! first) as [e|] eqn:He.
  - rewrite (get_entry_some _ _ _ He).
    by destruct (lookahead_timestamp (next_line e)).
  - by rewrite (get_entry_none _ _ He).
Qed.

(** The store [connect] leaves when it returns: every registered file was
    opened and primed, the watermark is the timestamp of the first row of
    the first registered file. *)
Lemma connect_ok fs db db1 first others :
  filenames db = first :: others →
  connect fs db = (Ok tt, db1) →
  filenames db1 = filenames db
  ∧ (∀ p, p ∈ filenames db →
       ∃ lines, open_read fs p = Ok lines
                ∧ tmp_read db1 !! p = Some (primed p lines))
  ∧ ∃ lines, open_read fs first = Ok lines
             ∧ lookahead_timestamp (next_line (primed first lines))
               = Ok (saved_timestamp db1).
Proof.
  intros Hnames. rewrite connect_eq.
  pose proof (for_each_frame outline (filenames db) close_if_open
                close_if_open_outline db) as Hclose.
  destruct (for_each _ close_if_open db) as [[[]|e1] dbc]; [| done].
  destruct (for_each _ (open_and_prime fs) dbc) as [[[]|e2] dbp] eqn:Hloop;
    [| done].
  apply prime_loop_ok in Hloop as (Hout & Hin & _).
  rewrite Hnames. rewrite Hnames in Hin.
  destruct (Hin first) as (lines & Hopen & Hentry & _); [by left |].
  rewrite Hentry.
  destruct (lookahead_timestamp _) as [t|] eqn:Ht; [| done].
  intros [= <-]. simpl in Hclose. unfold outline in Hclose, Hout.
  split; [simpl; rewrite <- Hnames; congruence |].
  split; [| by exists lines].
  intros p Hp. destruct (Hin p Hp) as (lines' & Hopen' & Hentry' & _).
  by exists lines'.
Qed.

(** Whatever the common keys, [connect] does not return when the first
    registered file holds no row. *)
Lemma connect_empty_primary fs db first others lines :
  filenames db = first :: others →
  open_read fs first = Ok lines →
  DictReader lines = [] →
  (connect fs db).1 ≠ Ok tt.
Proof.
  intros Hnames Hopen Hrows Hok.
  destruct (connect fs db) as [res db1] eqn:Hconnect. simpl in Hok. subst res.
  destruct (connect_ok fs db db1 first others Hnames Hconnect)
    as (_ & _ & lines' & Hopen' & Hsaved).
  assert (lines' = lines) as -> by congruence.
  unfold primed in Hsaved. by rewrite Hrows in Hsaved.
Qed.


End Connect.

Lemma demo_store_init : @__init__ py_imports "/d" = Ok demo_store.
Proof. reflexivity. Qed.



(** C3, the failing cases: a registered file that exists and holds no row.
    [connect] raises [TypeError] when the file is the first registered one,
    whether it is empty or holds its header line only, and when it is a
    later one; the lookahead of the file is exhausted. *)
Theorem connect_empty_file :
  (@connect py_imports demo_disk (store_with ["empty.csv"; "B.csv"])).1
  = Raise TypeError
  ∧ (@connect py_imports demo_disk (store_with ["header.csv"; "B.csv"])).1
    = Raise TypeError
  ∧ (@connect py_imports demo_disk (store_with ["B.csv"; "empty.csv"])).1
    = Raise TypeError
  ∧ next_line <$>
      tmp_read (@connect py_imports demo_disk
                  (store_with ["B.csv"; "empty.csv"])).2 !! "/d/empty.csv"
    = Some Exhausted.
Proof. repeat split; by vm_compute. Qed.

(** ** One file of one step *)

Section Step.
Context `{ReportModel} `{Imports}.

(** [while_true] on an entry with a row ahead and a usable reader. *)
Lemma while_true_stream p T json db e row rows :
  tmp_read db !! p = Some e →
  next_line e = Row row →
  reader_rows e = Ok rows →
  while_true p T json db
  = (let '(res, stream, saved) :=
       scan T (bool_decide (head (filenames db) = Some p)) (basename p)
            (row :: rows) json in
     (res,
      store_saved saved
        (set_tmp_read (<[p := of_stream stream e]> (tmp_read db)) db))).
Proof.
  intros He Hrow Hrows. unfold while_true. mred.
  rewrite (get_entry_some _ _ _ He), Hrow, Hrows.
  destruct (scan _ _ _ _ _) as [[res stream] saved].
  rewrite (update_entry_some _ _ _ _ He).
  by destruct saved, res.
Qed.

Lemma of_stream_holds e row rows :
  next_line e = Row row → reader_rows e = Ok rows →
  of_stream (row :: rows) e = e.
Proof.
  intros Hrow Hrows. unfold reader_rows in Hrows. destruct e as [la rd f].
  simpl in *. subst la. destruct rd as [rows'|]; [| done].
  destruct (file_closed _); [done |]. by injection Hrows as ->.
Qed.

(** [while_true] is the loop of the source: it satisfies its equation, one
    turn of the loop followed by the loop. *)
Lemma while_true_unfold path_file T json db :
  while_true path_file T json db
  = (e <- get_entry path_file ;;
     match next_line e with
     | Exhausted => ret json
     | Unprimed => raise TypeError
     | Row row =>
         row_ts <- lift (row_timestamp row) ;;
         if T <? row_ts then
           (if bool_decide (head (filenames db) = Some path_file)
            then modify (set_saved_timestamp row_ts) else ret tt) ;;;
           ret json
         else
           la <- _next path_file ;;
           update_entry path_file (set_next_line la) ;;;
           while_true path_file T
             (if row_ts =? T
              then dict_merge json (from_csvdb (basename path_file) row)
              else json)
     end) db.
Proof.
  destruct (tmp_read db !! path_file) as [e|] eqn:He.
  2: { unfold while_true. mred. by rewrite (get_entry_none _ _ He). }
  destruct (next_line e) as [| |row] eqn:Hrow.
  1,2: unfold while_true; mred; by rewrite (get_entry_some _ _ _ He), Hrow.
  destruct (reader_rows e) as [rows|err] eqn:Hrows.
  - rewrite (while_true_stream _ _ _ _ _ _ _ He Hrow Hrows).
    mred. rewrite (get_entry_some _ _ _ He), Hrow. simpl.
    destruct (row_timestamp row) as [row_ts|x] eqn:Hts.
    2: { by rewrite (of_stream_holds _ _ _ Hrow Hrows), (insert_id _ _ _ He),
                   set_tmp_read_id. }
    destruct (T <? row_ts).
    { rewrite (of_stream_holds _ _ _ Hrow Hrows), (insert_id _ _ _ He),
              set_tmp_read_id.
      by case_bool_decide. }
    unfold _next. mred. rewrite (get_entry_some _ _ _ He), Hrows.
    destruct rows as [|row' rows'].
    + rewrite (update_entry_some _ _ _ _ He).
      unfold while_true. mred.
      erewrite get_entry_some by (cbn [tmp_read set_tmp_read];
                                  apply lookup_insert_eq).
      simpl. do 3 f_equal. unfold reader_rows in Hrows.
      destruct e as [la [rows|] f]; [| done]. simpl in *.
      destruct (file_closed _); [done |]. by injection Hrows as ->.
    + rewrite (update_entry_some _ _ _ _ He).
      erewrite update_entry_some by (cbn [tmp_read set_tmp_read];
                                     apply lookup_insert_eq).
      cbn [tmp_read set_tmp_read]. rewrite insert_insert_eq.
      rewrite (while_true_stream _ _ _ _ (of_stream (row' :: rows') e)
                 row' rows');
        [| cbn [tmp_read set_tmp_read]; apply lookup_insert_eq | done |].
      * cbn [tmp_read set_tmp_read filenames].
        destruct (scan _ _ _ _ _) as [[res stream] saved].
        by rewrite insert_insert_eq, of_stream_of_stream.
      * unfold reader_rows, file_closed in *. simpl.
        destruct (reader e); [| done]. by destruct (file e) as [[? []]|].
  - unfold while_true at 1. mred.
    rewrite (get_entry_some _ _ _ He), Hrow, Hrows.
    destruct (row_timestamp row) as [row_ts|x]; [| done].
    destruct (T <? row_ts); [done |].
    unfold _next. mred. by rewrite (get_entry_some _ _ _ He), Hrows.
Qed.

Lemma scan_stale T primary fname row rows json t :
  row_timestamp row = Ok t → t < T →
  scan T primary fname (row :: rows) json = scan T primary fname rows json.
Proof.
  intros Ht Hlt. simpl. rewrite Ht.
  destruct (Z.ltb_spec T t); [lia |].
  destruct (Z.eqb_spec t T); [lia | done].
Qed.

Lemma scan_all_stale T primary fname rows json :
  Forall (λ r, ∃ t, row_timestamp r = Ok t ∧ t < T) rows →
  scan T primary fname rows json = (Ok json, [], None).
Proof.
  induction 1 as [|row rows (t & Ht & Hlt) _ IH]; [done |].
  by rewrite (scan_stale _ _ _ _ _ _ _ Ht Hlt).
Qed.

(** C8. During a step at watermark [T], a lookahead row whose timestamp is
    strictly less than [T] is passed over: the loop goes on exactly as
    from the store where the cursor of the file is past the row, with the
    merged record as it was; and a file that holds only such rows is read
    to its end without raising, leaving the merged record untouched. *)
Theorem stale_row_is_skipped (path_file : string) (T : Z) (json : dict)
    (db : CsvDB) (e : entry) (row : csv_row) (rows : list csv_row) (t : Z) :
  tmp_read db !! path_file = Some e →
  next_line e = Row row →
  reader_rows e = Ok rows →
  row_timestamp row = Ok t →
  t < T →
  while_true path_file T json db
  = while_true path_file T json
      (set_tmp_read (<[path_file := of_stream rows e]> (tmp_read db)) db)
  ∧ (Forall (λ r, ∃ t', row_timestamp r = Ok t' ∧ t' < T) rows →
     while_true path_file T json db
     = (Ok json,
        set_tmp_read (<[path_file := of_stream [] e]> (tmp_read db)) db)).
Proof.
  intros He Hrow Hrows Ht Hlt.
  rewrite (while_true_stream _ _ _ _ _ _ _ He Hrow Hrows).
  rewrite (scan_stale _ _ _ _ _ _ _ Ht Hlt).
  split.
  - destruct rows as [|row' rows'].
    + unfold while_true. mred.
      erewrite get_entry_some by (simpl; apply lookup_insert_eq). done.
    + rewrite (while_true_stream _ _ _ _ (of_stream (row' :: rows') e)
                 row' rows');
        [| cbn [tmp_read set_tmp_read]; apply lookup_insert_eq | done |].
      * cbn [tmp_read set_tmp_read filenames].
        destruct (scan _ _ _ _ _) as [[res stream] saved].
        by rewrite insert_insert_eq, of_stream_of_stream.
      * unfold reader_rows, file_closed in *. simpl.
        destruct (reader e); [| done]. by destruct (file e) as [[? []]|].
  - intros Hstale. by rewrite (scan_all_stale _ _ _ _ _ Hstale).
Qed.

End Step.

(** late.csv, registered first, starts at t=5 and mixed.csv at t=3: in the
    connected store the watermark is 5 and the lookahead row of mixed.csv,
    of timestamp 3, is stale. *)
Lemma stale_row_is_skipped_witness :
  let db := (@connect py_imports demo_disk
               (store_with ["late.csv"; "mixed.csv"])).2 in
  let e := primed "/d/mixed.csv" (content file_mixed) in
  let row := zip_row power_header ["3"; "s1"; "t1"; "0"; "0"; "31"] in
  let rows := [zip_row power_header ["5"; "s1"; "t1"; "0"; "0"; "51"]] in
  (saved_timestamp db = 5
   ∧ tmp_read db !! "/d/mixed.csv" = Some e
   ∧ next_line e = Row row
   ∧ reader_rows e = Ok rows
   ∧ @row_timestamp py_imports row = Ok 3)
  ∧ @while_true demo_model py_imports "/d/mixed.csv" 5 [] db
    = @while_true demo_model py_imports "/d/mixed.csv" 5 []
        (set_tmp_read (<["/d/mixed.csv" := of_stream rows e]> (tmp_read db))
                      db).
Proof.
  set (db := (@connect py_imports demo_disk
                (store_with ["late.csv"; "mixed.csv"])).2).
  set (e := primed "/d/mixed.csv" (content file_mixed)).
  set (row := zip_row power_header ["3"; "s1"; "t1"; "0"; "0"; "31"]).
  set (rows := [zip_row power_header ["5"; "s1"; "t1"; "0"; "0"; "51"]]).
  cbv zeta.
  assert (tmp_read db !! "/d/mixed.csv" = Some e) as He
    by (vm_compute; reflexivity).
  assert (next_line e = Row row) as Hrow by (vm_compute; reflexivity).
  assert (reader_rows e = Ok rows) as Hrows by (vm_compute; reflexivity).
  assert (@row_timestamp py_imports row = Ok 3) as Ht
    by (vm_compute; reflexivity).
  assert (3 < 5) as Hlt by lia.
  split; [repeat split; by vm_compute || done |].
  exact (proj1 (@stale_row_is_skipped demo_model py_imports "/d/mixed.csv" 5 []
                  db e row rows 3 He Hrow Hrows Ht Hlt)).
Defined.

(** ** The watermark *)

Section Watermark.
Context `{ReportModel} `{Imports}.

(** [saved_timestamp] is assigned by the first registered file only, with
    the timestamp, greater than the watermark, of the row it stops at. *)
Lemma scan_saved T primary fname stream json res stream' t :
  scan T primary fname stream json = (res, stream', Some t) →
  primary = true
  ∧ T < t
  ∧ ∃ row rest, stream' = row :: rest ∧ row_timestamp row = Ok t.
Proof.
  revert json. induction stream as [|row rest IH]; intros json; simpl; [done |].
  destruct (row_timestamp row) as [row_ts|] eqn:Hts; [| done].
  destruct (Z.ltb_spec T row_ts) as [Hlt|Hge]; [| by apply IH].
  destruct primary; [| done].
  intros [= <- <- <-]. eauto 6.
Qed.

Lemma scan_primary_ahead T fname row rows json t :
  row_timestamp row = Ok t → T < t →
  scan T true fname (row :: rows) json = (Ok json, row :: rows, Some t).
Proof.
  intros Ht Hlt. simpl. rewrite Ht. by destruct (Z.ltb_spec T t); [| lia].
Qed.

Lemma advanced_refl T db : advanced T db db.
Proof. split; [done | by left]. Qed.

Lemma while_true_advanced T p json db0 db :
  advanced T db0 db → advanced T db0 (while_true p T json db).2.
Proof.
  intros [Hnames Hsaved].
  destruct (tmp_read db !! p) as [e|] eqn:He.
  2: { unfold while_true. mred. by rewrite (get_entry_none _ _ He). }
  destruct (next_line e) as [| |row] eqn:Hrow.
  1,2: unfold while_true; mred; by rewrite (get_entry_some _ _ _ He), Hrow.
  destruct (reader_rows e) as [rows|err] eqn:Hrows.
  - rewrite (while_true_stream _ _ _ _ _ _ _ He Hrow Hrows).
    destruct (scan _ _ _ _ _) as [[res stream] [t|]] eqn:Hscan; simpl.
    + apply scan_saved in Hscan as (Hprimary & Hlt & r & rest & -> & Ht).
      apply bool_decide_eq_true in Hprimary.
      split; [done |]. right. split; [done |].
      exists p, (of_stream (r :: rest) e), r. simpl.
      by rewrite lookup_insert_eq.
    + split; [done |].
      destruct Hsaved as [Heq | (Hlt & p' & e' & row' & Hhead & He' & Hrow' & Ht')];
        [by left |].
      right. split; [done |]. simpl.
      destruct (decide (p = p')) as [<-|Hne].
      * exfalso. assert (e' = e) as -> by congruence.
        assert (row' = row) as -> by congruence.
        rewrite bool_decide_eq_true_2 in Hscan by done.
        by rewrite (scan_primary_ahead _ _ _ _ _ _ Ht' Hlt) in Hscan.
      * exists p', e', row'. by rewrite lookup_insert_ne.
  - unfold while_true. mred.
    rewrite (get_entry_some _ _ _ He), Hrow, Hrows.
    destruct (row_timestamp row) as [t|] eqn:Ht; [| done].
    destruct (Z.ltb_spec T t) as [Hlt|Hge]; [| done].
    case_bool_decide as Hprimary; [| done].
    split; [done |]. right. split; [done |]. by exists p, e, row.
Qed.

Lemma for_filenames_advanced T paths json db0 db :
  advanced T db0 db → advanced T db0 (for_filenames paths T json db).2.
Proof.
  revert json db. induction paths as [|p paths IH]; intros json db Hdb; [done |].
  simpl. unfold bind.
  pose proof (while_true_advanced T p json db0 db Hdb) as Hstep.
  destruct (while_true p T json db) as [[json'|e] db1]; [| done].
  by apply IH.
Qed.

Lemma next_advanced db :
  advanced (saved_timestamp db) db (__next__ db).2.
Proof.
  unfold __next__. mred.
  pose proof (for_filenames_advanced (saved_timestamp db) (filenames db) []
                db db (advanced_refl _ _)) as Hloop.
  destruct (for_filenames _ _ _ db) as [[json|e] db1]; [| done].
  by destruct json.
Qed.

Lemma next_saved_timestamp db :
  saved_timestamp db ≤ saved_timestamp (__next__ db).2.
Proof. destruct (next_advanced db) as [_ [-> | [? _]]]; lia. Qed.

Lemma pull_sorted fuel db out res db' :
  pull fuel db = Some (out, res, db') →
  Forall (λ t, saved_timestamp db ≤ t) out.*1 ∧ StronglySorted Z.le out.*1.
Proof.
  revert db out res db'.
  induction fuel as [|fuel IH]; intros db out res db'; simpl; [done |].
  pose proof (next_saved_timestamp db) as Hle.
  destruct (__next__ db) as [[json|e] db1].
  - destruct (pull fuel db1) as [[[out1 res1] db2]|] eqn:Hpull; [| done].
    intros [= <- <- <-].
    apply IH in Hpull as [Hall Hsorted]. simpl in *.
    split.
    + apply Forall_cons. split; [lia |].
      eapply Forall_impl; [exact Hall |]. simpl. lia.
    + apply SSorted_cons; [done |]. eapply Forall_impl; [exact Hall |].
      simpl. lia.
  - destruct e; intros [= <- <- <-]; split; constructor.
Qed.

End Watermark.

(** ** A step over streams in ascending order *)

Section Streams.
Context `{ReportModel} `{Imports}.

Lemma time_of_timestamp row t : row_timestamp row = Ok t → time_of row = t.
Proof. unfold time_of. by intros ->. Qed.

Lemma row_timestamp_time_of row :
  has_timestamp row → row_timestamp row = Ok (time_of row).
Proof. intros [t Ht]. by rewrite (time_of_timestamp _ _ Ht). Qed.

Lemma ascending_cons row rows :
  ascending (row :: rows) ↔
  Forall (λ r, time_of row ≤ time_of r) rows ∧ ascending rows.
Proof.
  unfold ascending. split.
  - intros Hs. by inversion Hs.
  - intros [? ?]. by constructor.
Qed.

Lemma rows_after_ascending T stream :
  ascending stream → ascending (rows_after T stream).
Proof.
  unfold rows_after.
  induction stream as [|row rows IH]; [done |].
  intros [Hall Hrows]%ascending_cons. rewrite filter_cons.
  destruct (decide _); [| by apply IH].
  apply ascending_cons. split; [| by apply IH].
  apply Forall_forall. intros r [_ Hr]%list_elem_of_filter.
  by apply (proj1 (Forall_forall _ _) Hall).
Qed.

Lemma rows_after_has_timestamp T stream :
  Forall has_timestamp stream → Forall has_timestamp (rows_after T stream).
Proof.
  rewrite !Forall_forall. intros Hall r [_ Hr]%list_elem_of_filter. auto.
Qed.

(** Nothing of a stream that starts after [T] is at [T] or before. *)
Lemma rows_after_all T stream :
  Forall (λ r, T < time_of r) stream → rows_after T stream = stream.
Proof.
  unfold rows_after. induction 1 as [|row rows Hrow _ IH]; [done |].
  by rewrite filter_cons_True, IH.
Qed.

Lemma rows_at_none T stream :
  Forall (λ r, T < time_of r) stream → rows_at T stream = [].
Proof.
  unfold rows_at. induction 1 as [|row rows Hrow _ IH]; [done |].
  rewrite filter_cons_False; [done | lia].
Qed.

Lemma rows_at_rows_after T T' stream :
  T < T' → rows_at T' (rows_after T stream) = rows_at T' stream.
Proof.
  intros Hlt. unfold rows_at, rows_after.
  induction stream as [|row rows IH]; [done |].
  rewrite !filter_cons. destruct (decide (T < time_of row)).
  - rewrite filter_cons. by rewrite IH.
  - rewrite IH. destruct (decide (time_of row = T')); [lia | done].
Qed.

Lemma rows_at_rows_after_same T stream :
  rows_at T (rows_after T stream) = [].
Proof.
  apply rows_at_none, Forall_forall.
  by intros r [? _]%list_elem_of_filter.
Qed.

Lemma elem_of_times_rows_after T stream t :
  t ∈ time_of <$> rows_after T stream ↔ t ∈ time_of <$> stream ∧ T < t.
Proof.
  rewrite !list_elem_of_fmap. split.
  - intros (r & -> & [? ?]%list_elem_of_filter). eauto.
  - intros [(r & -> & Hr) Hlt]. exists r. split; [done |].
    by apply list_elem_of_filter.
Qed.

(** The loop body on the rows of a file in ascending order: the rows at
    the watermark are merged, those before it are dropped with them, the
    loop stops at the first row after it. *)
Lemma scan_ascending T primary fname stream json :
  Forall has_timestamp stream →
  ascending stream →
  scan T primary fname stream json
  = (Ok (merge_rows fname (rows_at T stream) json),
     rows_after T stream,
     if primary then time_of <$> head (rows_after T stream) else None).
Proof.
  revert json.
  induction stream as [|row rows IH]; intros json Hts Hasc.
  { simpl. by destruct primary. }
  apply Forall_cons in Hts as [Hrow Hts].
  pose proof Hasc as [Hall Hrows]%ascending_cons.
  simpl. rewrite (row_timestamp_time_of _ Hrow).
  destruct (Z.ltb_spec T (time_of row)) as [Hlt|Hge].
  - assert (Forall (λ r, T < time_of r) (row :: rows)) as Hafter.
    { apply Forall_cons. split; [done |].
      eapply Forall_impl; [exact Hall |]. simpl. lia. }
    by rewrite (rows_after_all _ _ Hafter), (rows_at_none _ _ Hafter).
  - rewrite IH by done. unfold rows_at, rows_after.
    rewrite filter_cons, (filter_cons_False (λ r, T < time_of r)) by lia.
    destruct (Z.eqb_spec (time_of row) T) as [Heq|Hne].
    + by rewrite decide_True.
    + by rewrite decide_False.
Qed.

Lemma holds_of_stream stream e :
  file_closed e = false → holds (of_stream stream e) stream.
Proof.
  intros Hopen. destruct stream as [|row rows]; [done |].
  split; [done |]. unfold reader_rows, file_closed in *. simpl.
  by rewrite Hopen.
Qed.

Lemma holds_cons_open e row rows :
  holds e (row :: rows) → file_closed e = false.
Proof.
  intros [_ Hrows]. unfold reader_rows in Hrows.
  destruct (reader e); [| done]. by destruct (file_closed e).
Qed.

Lemma holds_primed p lines : holds (primed p lines) (DictReader lines).
Proof. by apply holds_of_stream. Qed.

(** [while_true] on an entry that holds a stream in ascending order. *)
Lemma while_true_ascending p T json db e stream :
  tmp_read db !! p = Some e →
  holds e stream →
  Forall has_timestamp stream →
  ascending stream →
  ∃ e',
    holds e' (rows_after T stream)
    ∧ while_true p T json db
      = (Ok (merge_rows (basename p) (rows_at T stream) json),
         store_saved
           (if bool_decide (head (filenames db) = Some p)
            then time_of <$> head (rows_after T stream) else None)
           (set_tmp_read (<[p := e']> (tmp_read db)) db)).
Proof.
  intros He Hholds Hts Hasc. destruct stream as [|row rows].
  - exists e. split; [done |].
    unfold while_true. mred. rewrite (get_entry_some _ _ _ He), Hholds.
    rewrite (insert_id _ _ _ He), set_tmp_read_id.
    by case_bool_decide.
  - pose proof (holds_cons_open _ _ _ Hholds) as Hopen.
    destruct Hholds as [Hrow Hrows].
    exists (of_stream (rows_after T (row :: rows)) e).
    split; [by apply holds_of_stream |].
    rewrite (while_true_stream _ _ _ _ _ _ _ He Hrow Hrows).
    by rewrite scan_ascending.
Qed.

End Streams.

(** ** A step over all the files *)

Section Files.
Context `{ReportModel} `{Imports}.

Lemma merge_files_ext T streams streams' paths json :
  (∀ p, p ∈ paths → streams p = streams' p) →
  merge_files T streams paths json = merge_files T streams' paths json.
Proof.
  revert json. induction paths as [|p paths IH]; intros json Hext; [done |].
  unfold merge_files in *. simpl. rewrite (Hext p) by left.
  apply IH. intros q Hq. apply Hext. by right.
Qed.

Lemma merged_record_ext T streams streams' paths :
  (∀ p, p ∈ paths → rows_at T (streams p) = rows_at T (streams' p)) →
  merged_record streams paths T = merged_record streams' paths T.
Proof.
  unfold merged_record. generalize ([] : dict).
  induction paths as [|p paths IH]; intros json Hext; [done |].
  simpl. rewrite (Hext p) by left.
  apply IH. intros q Hq. apply Hext. by right.
Qed.

Lemma tracks_ext db streams streams' paths :
  (∀ p, p ∈ paths → streams p = streams' p) →
  tracks db streams paths → tracks db streams' paths.
Proof.
  intros Hext Htracks p Hp. rewrite <- (Hext p Hp). by apply Htracks.
Qed.

Lemma filenames_store_saved saved db :
  filenames (store_saved saved db) = filenames db.
Proof. by destruct saved. Qed.

Lemma tmp_read_store_saved saved db :
  tmp_read (store_saved saved db) = tmp_read db.
Proof. by destruct saved. Qed.

Lemma regular_step T paths streams :
  regular streams paths → regular (step_streams T paths streams) paths.
Proof.
  intros Hreg p Hp. unfold step_streams. rewrite decide_True by done.
  destruct (Hreg p Hp).
  split; [by apply rows_after_has_timestamp | by apply rows_after_ascending].
Qed.

(** The loop over the files of [__next__], on streams in ascending order. *)
Lemma for_filenames_tracks T paths p0 l :
  ∀ json db streams,
    NoDup l →
    l ⊆ paths →
    head (filenames db) = Some p0 →
    tracks db streams paths →
    regular streams l →
    ∃ db',
      for_filenames l T json db = (Ok (merge_files T streams l json), db')
      ∧ filenames db' = filenames db
      ∧ tracks db' (step_streams T l streams) paths
      ∧ saved_timestamp db'
        = if decide (p0 ∈ l)
          then from_option time_of (saved_timestamp db)
                 (head (rows_after T (streams p0)))
          else saved_timestamp db.
Proof.
  induction l as [|x l IH]; intros json db streams Hnodup Hsub Hhead Htracks Hreg.
  { exists db. split; [done |]. split; [done |]. split; [| done].
    intros p Hp. unfold step_streams.
    rewrite decide_False by apply not_elem_of_nil. by apply Htracks. }
  apply NoDup_cons in Hnodup as [Hx Hnodup].
  destruct (Htracks x) as (e & He & Hholds); [apply Hsub; by left |].
  destruct (Hreg x) as [Hts Hasc]; [by left |].
  destruct (while_true_ascending x T json db e (streams x) He Hholds Hts Hasc)
    as (e' & Hholds' & Hstep).
  simpl. unfold bind. rewrite Hstep.
  set (saved := if bool_decide (head (filenames db) = Some x)
                then time_of <$> head (rows_after T (streams x)) else None).
  set (db1 := store_saved saved
                (set_tmp_read (<[x := e']> (tmp_read db)) db)).
  set (streams1 := λ p, if decide (p = x) then rows_after T (streams x)
                        else streams p).
  assert (∀ p, p ∈ l → streams1 p = streams p) as Hsame.
  { intros p Hp. unfold streams1. rewrite decide_False; [done |].
    by intros ->. }
  destruct (IH (merge_rows (basename x) (rows_at T (streams x)) json)
               db1 streams1) as (db' & Hloop & Hnames & Htracks' & Hsaved).
  - done.
  - intros p Hp. apply Hsub. by right.
  - unfold db1. by rewrite filenames_store_saved.
  - intros p Hp. unfold db1, streams1. rewrite tmp_read_store_saved. simpl.
    destruct (decide (p = x)) as [->|Hne].
    + exists e'. by rewrite lookup_insert_eq.
    + rewrite lookup_insert_ne by done. by apply Htracks.
  - intros p Hp. rewrite (Hsame p Hp). apply Hreg. by right.
  - exists db'. split; [| split; [| split]].
    + rewrite Hloop. f_equal. f_equal. by apply merge_files_ext.
    + rewrite Hnames. unfold db1. by rewrite filenames_store_saved.
    + intros p Hp. destruct (Htracks' p Hp) as (ep & Hep & Hholdsp).
      exists ep. split; [done |].
      replace (step_streams T (x :: l) streams p)
        with (step_streams T l streams1 p); [done |].
      unfold step_streams, streams1.
      destruct (decide (p = x)) as [->|Hne].
      * rewrite decide_False by done. rewrite decide_True; [done | by left].
      * destruct (decide (p ∈ l)) as [Hpl|Hpl].
        -- rewrite decide_True; [done | by right].
        -- rewrite decide_False; [done |].
           by intros [?|?]%elem_of_cons.
    + rewrite Hsaved. unfold db1, saved, streams1.
      case_bool_decide as Hprimary.
      * assert (x = p0) as -> by congruence.
        rewrite (decide_False (P := p0 ∈ l)) by done.
        rewrite (decide_True (P := p0 ∈ p0 :: l)) by left.
        by destruct (head (rows_after T (streams p0))).
      * assert (x ≠ p0) as Hne by congruence.
        simpl. destruct (decide (p0 ∈ l)) as [Hpl|Hpl].
        -- rewrite (decide_True (P := p0 ∈ x :: l)) by (by right).
           by rewrite (decide_False (P := p0 = x)) by done.
        -- rewrite (decide_False (P := p0 ∈ x :: l)); [done |].
           intros [?|?]%elem_of_cons; congruence.
Qed.

End Files.

(** ** Iterating a connected store *)

Section Iteration.
Context `{ReportModel} `{Imports}.

Lemma merged_record_nil streams paths T :
  (∀ p, p ∈ paths → rows_at T (streams p) = []) →
  merged_record streams paths T = [].
Proof.
  intros Hnone. change (merge_files T streams paths [] = []).
  generalize ([] : dict).
  induction paths as [|p paths IH]; intros json; [done |].
  unfold merge_files in *. simpl. rewrite (Hnone p) by left. simpl.
  apply IH. intros q Hq. apply Hnone. by right.
Qed.

(** One call of [__next__] on a store whose registered files hold streams
    in ascending order. *)
Lemma next_tracks db streams p0 others :
  filenames db = p0 :: others →
  NoDup (filenames db) →
  tracks db streams (filenames db) →
  regular streams (filenames db) →
  ∃ db',
    __next__ db
    = (match merged_record streams (filenames db) (saved_timestamp db) with
       | [] => Raise StopIteration
       | json => Ok json
       end, db')
    ∧ filenames db' = filenames db
    ∧ tracks db' (step_streams (saved_timestamp db) (filenames db) streams)
             (filenames db)
    ∧ saved_timestamp db'
      = from_option time_of (saved_timestamp db)
          (head (rows_after (saved_timestamp db) (streams p0))).
Proof.
  intros Hnames Hnodup Htracks Hreg.
  destruct (for_filenames_tracks (saved_timestamp db) (filenames db) p0
              (filenames db) [] db streams)
    as (db' & Hloop & Hnames' & Htracks' & Hsaved); try done.
  { by rewrite Hnames. }
  exists db'. unfold __next__. mred. rewrite Hloop.
  change (merge_files (saved_timestamp db) streams (filenames db) [])
    with (merged_record streams (filenames db) (saved_timestamp db)).
  split; [by destruct (merged_record _ _ _) |].
  split; [done |]. split; [done |].
  rewrite Hsaved, decide_True; [done |]. rewrite Hnames. by left.
Qed.

Lemma head_time_least row rows t :
  ascending (row :: rows) → t ∈ time_of <$> row :: rows → time_of row ≤ t.
Proof.
  intros [Hall _]%ascending_cons [->|Ht]%elem_of_cons; [done |].
  apply list_elem_of_fmap in Ht as (r & -> & Hr).
  by apply (proj1 (Forall_forall _ _) Hall).
Qed.

(** Pulling from a store whose files hold streams in ascending order,
    [Ts] being the timestamps still ahead in the first registered file:
    one record for each of them, then the end of the stream. *)
Lemma pull_tracks p0 others Ts :
  ∀ db streams fuel,
    filenames db = p0 :: others →
    NoDup (filenames db) →
    tracks db streams (filenames db) →
    regular streams (filenames db) →
    StronglySorted Z.lt Ts →
    (∀ t, t ∈ Ts ↔ t ∈ time_of <$> streams p0) →
    (∀ t, t ∈ Ts → merged_record streams (filenames db) t ≠ []) →
    match Ts with
    | T :: _ => saved_timestamp db = T
    | [] => ∀ p, p ∈ filenames db →
                 rows_at (saved_timestamp db) (streams p) = []
    end →
    (length Ts < fuel)%nat →
    ∃ db',
      pull fuel db
      = Some ((λ T, (T, merged_record streams (filenames db) T)) <$> Ts,
              Ok tt, db').
Proof.
  induction Ts as [|T Ts IH];
    intros db streams fuel Hnames Hnodup Htracks Hreg Hsorted Helem Hne Hpre Hfuel.
  - destruct fuel as [|fuel]; [simpl in Hfuel; lia |]. simpl.
    destruct (next_tracks db streams p0 others) as (db' & -> & _); try done.
    rewrite merged_record_nil by done. by exists db'.
  - destruct fuel as [|fuel]; [simpl in Hfuel; lia |]. simpl in *.
    destruct (next_tracks db streams p0 others)
      as (db' & -> & Hnames' & Htracks' & Hsaved'); try done.
    rewrite Hpre in *.
    set (streams' := step_streams T (filenames db) streams) in *.
    assert (p0 ∈ filenames db) as Hp0 by (rewrite Hnames; by left).
    assert (streams' p0 = rows_after T (streams p0)) as Hprimary.
    { unfold streams', step_streams. by rewrite decide_True. }
    apply StronglySorted_inv in Hsorted as [Hsorted Hlater].
    assert (∀ t, t ∈ Ts ↔ t ∈ time_of <$> streams' p0) as Helem'.
    { intros t. rewrite Hprimary, elem_of_times_rows_after, <- Helem.
      rewrite elem_of_cons. split.
      - intros Ht. split; [by right |].
        by apply (proj1 (Forall_forall _ _) Hlater).
      - intros [[-> | Ht] Hlt]; [lia | done]. }
    assert (∀ t, t ∈ Ts →
              merged_record streams' (filenames db') t
              = merged_record streams (filenames db) t) as Hmerged.
    { intros t Ht. rewrite Hnames'. apply merged_record_ext.
      intros p Hp. unfold streams', step_streams. rewrite decide_True by done.
      apply rows_at_rows_after.
      by apply (proj1 (Forall_forall _ _) Hlater). }
    destruct (merged_record streams (filenames db) T) as [|kv json] eqn:Hjson.
    { exfalso. apply (Hne T); [by left | done]. }
    destruct (IH db' streams' fuel) as (db'' & Hpull).
    + congruence.
    + by rewrite Hnames'.
    + by rewrite Hnames'.
    + rewrite Hnames'. by apply regular_step.
    + done.
    + done.
    + intros t Ht. rewrite (Hmerged t Ht). apply Hne. by right.
    + destruct (Hreg p0 Hp0) as [_ Hasc].
      apply (rows_after_ascending T) in Hasc.
      rewrite Hsaved'. rewrite Hprimary in Helem'.
      remember (rows_after T (streams p0)) as rs eqn:Hrs.
      destruct Ts as [|T' Ts'].
      * assert (rs = []) as ->.
        { destruct rs as [|r rest]; [done |].
          exfalso. apply (not_elem_of_nil (time_of r)), Helem'. by left. }
        simpl. intros p Hp. rewrite Hnames' in Hp.
        unfold streams', step_streams. rewrite decide_True by done.
        apply rows_at_rows_after_same.
      * assert (T' ∈ time_of <$> rs) as HT' by (apply Helem'; by left).
        destruct rs as [|r rest]; [by apply elem_of_nil in HT' |].
        simpl. apply Z.le_antisymm.
        -- by apply (head_time_least r rest).
        -- assert (time_of r ∈ T' :: Ts') as [-> | Hr]%elem_of_cons.
           { apply Helem'. by left. }
           ++ done.
           ++ apply StronglySorted_inv in Hsorted as [_ Hlater'].
              apply Z.lt_le_incl.
              by apply (proj1 (Forall_forall _ _) Hlater').
    + lia.
    + rewrite Hpull. exists db''.
      assert ((λ T, (T, merged_record streams' (filenames db') T)) <$> Ts
              = (λ T, (T, merged_record streams (filenames db) T)) <$> Ts)
        as ->; [| done].
      apply list_fmap_ext. intros i t Ht. f_equal.
      apply Hmerged. by eapply list_elem_of_lookup_2.
Qed.

End Iteration.

(** ** Iteration comes to an end *)

Section Termination.
Context `{ReportModel} `{Imports}.

Lemma backlog_insert db p e e' :
  tmp_read db !! p = Some e →
  (backlog (set_tmp_read (<[p := e']> (tmp_read db)) db) + pending e
   = backlog db + pending e')%nat.
Proof.
  intros He. unfold backlog. simpl.
  rewrite (map_fold_delete_L _ _ p e (tmp_read db)); [| intros; lia | done].
  rewrite <- insert_delete_eq.
  rewrite map_fold_insert_L; [lia | intros; lia | apply lookup_delete_eq].
Qed.

Lemma backlog_store_saved saved db : backlog (store_saved saved db) = backlog db.
Proof. by destruct saved. Qed.

Lemma pending_of_stream stream e : pending (of_stream stream e) = length stream.
Proof. by destruct stream. Qed.

(** The loop body never gives rows back, and gives up one for each row it
    merges. *)
Lemma scan_length T primary fname stream json res stream' saved :
  scan T primary fname stream json = (res, stream', saved) →
  (length stream' ≤ length stream)%nat
  ∧ ∀ json', res = Ok json' →
             json' = json ∨ (length stream' < length stream)%nat.
Proof.
  revert json. induction stream as [|row rest IH]; intros json; simpl.
  { intros [= <- <- <-]. split; [done |]. intros json' [= <-]. by left. }
  destruct (row_timestamp row) as [row_ts|].
  2: { intros [= <- <- <-]. by split. }
  destruct (T <? row_ts).
  { intros [= <- <- <-]. split; [done |]. intros json' [= <-]. by left. }
  intros [Hle _]%IH. simpl. split; [lia |]. intros. right. lia.
Qed.

Lemma while_true_backlog p T json db :
  (backlog (while_true p T json db).2 ≤ backlog db)%nat
  ∧ ∀ json', (while_true p T json db).1 = Ok json' →
             json' = json
             ∨ (backlog (while_true p T json db).2 < backlog db)%nat.
Proof.
  destruct (tmp_read db !! p) as [e|] eqn:He.
  2: { unfold while_true. mred. by rewrite (get_entry_none _ _ He). }
  destruct (next_line e) as [| |row] eqn:Hrow.
  - unfold while_true. mred. rewrite (get_entry_some _ _ _ He), Hrow. done.
  - unfold while_true. mred. rewrite (get_entry_some _ _ _ He), Hrow. simpl.
    split; [done |]. intros json' [= <-]. by left.
  - destruct (reader_rows e) as [rows|err] eqn:Hrows.
    + rewrite (while_true_stream _ _ _ _ _ _ _ He Hrow Hrows).
      destruct (scan _ _ _ _ _) as [[res stream] saved] eqn:Hscan. simpl.
      apply scan_length in Hscan as [Hle Hlt].
      rewrite backlog_store_saved.
      pose proof (backlog_insert db p e (of_stream stream e) He) as Hsum.
      rewrite pending_of_stream in Hsum.
      assert (pending e = length (row :: rows)) as Hpending.
      { unfold pending, reader_rows in *. rewrite Hrow.
        destruct (reader e); [| done]. simpl.
        destruct (file_closed e); [done |]. by injection Hrows as ->. }
      split; [lia |]. intros json' Hres.
      destruct (Hlt json' Hres); [by left | right; lia].
    + unfold while_true. mred.
      rewrite (get_entry_some _ _ _ He), Hrow, Hrows.
      destruct (row_timestamp row) as [t|]; [| done].
      destruct (T <? t); [| done].
      case_bool_decide; simpl;
        (split; [done | intros json' [= <-]; by left]).
Qed.

Lemma for_filenames_backlog paths T json db :
  (backlog (for_filenames paths T json db).2 ≤ backlog db)%nat
  ∧ ∀ json', (for_filenames paths T json db).1 = Ok json' →
             json' = json
             ∨ (backlog (for_filenames paths T json db).2 < backlog db)%nat.
Proof.
  revert json db. induction paths as [|p paths IH]; intros json db.
  { simpl. split; [done |]. intros json' [= <-]. by left. }
  simpl. unfold bind.
  destruct (while_true_backlog p T json db) as [Hle Hlt].
  destruct (while_true p T json db) as [[json1|e] db1]; simpl in *; [| done].
  destruct (IH json1 db1) as [Hle1 Hlt1].
  split; [lia |]. intros json' Hres.
  destruct (Hlt1 json' Hres) as [-> | ?]; [| right; lia].
  destruct (Hlt json1 eq_refl) as [-> | ?]; [by left | right; lia].
Qed.

(** A call of [__next__] that yields a record has taken a row. *)
Lemma next_backlog db json :
  (__next__ db).1 = Ok json → (backlog (__next__ db).2 < backlog db)%nat.
Proof.
  unfold __next__. mred.
  destruct (for_filenames_backlog (filenames db) (saved_timestamp db) [] db)
    as [_ Hlt].
  destruct (for_filenames _ _ _ db) as [[json'|e] db1]; simpl in *; [| done].
  destruct json' as [|kv json']; [done |]. intros _.
  by destruct (Hlt (kv :: json') eq_refl).
Qed.

(** Iterating any store ends within as many calls as it has rows to give,
    and one more. *)
Lemma pull_terminates fuel db :
  (backlog db < fuel)%nat → is_Some (pull fuel db).
Proof.
  revert db. induction fuel as [|fuel IH]; intros db Hfuel; [lia |].
  simpl. pose proof (next_backlog db) as Hstep.
  destruct (__next__ db) as [[json|e] db1]; simpl in *.
  - destruct (IH db1) as [[[out res] db2] ->]; [| done].
    specialize (Hstep json eq_refl). lia.
  - by destruct e.
Qed.

End Termination.

(** ** The watermark through an iteration *)

Section WatermarkThroughout.
Context `{ReportModel} `{Imports}.

(** C9. A step replaces the watermark, if at all, by a strictly greater
    timestamp, the one of the lookahead row of the first registered file;
    iterating the store comes to an end, and the timestamps of the records
    it yields never decrease, as they never do through any number of
    steps. *)
Theorem watermark_non_decreasing (db : CsvDB) :
  (saved_timestamp (__next__ db).2 = saved_timestamp db
   ∨ (saved_timestamp db < saved_timestamp (__next__ db).2
      ∧ ∃ p e row,
          head (filenames db) = Some p
          ∧ tmp_read (__next__ db).2 !! p = Some e
          ∧ next_line e = Row row
          ∧ row_timestamp row = Ok (saved_timestamp (__next__ db).2)))
  ∧ (∃ out res db',
       pull (S (backlog db)) db = Some (out, res, db')
       ∧ StronglySorted Z.le out.*1
       ∧ Forall (λ t, saved_timestamp db ≤ t) out.*1)
  ∧ ∀ fuel,
      match pull fuel db with
      | Some (out, _, _) =>
          StronglySorted Z.le out.*1
          ∧ Forall (λ t, saved_timestamp db ≤ t) out.*1
      | None => True
      end.
Proof.
  split; [| split].
  - destruct (next_advanced db)
      as [Hnames [Heq | (Hlt & p & e & row & Hhead & He & Hrow & Ht)]];
      [by left |].
    right. split; [done |]. exists p, e, row. by rewrite <- Hnames.
  - destruct (pull_terminates (S (backlog db)) db) as [[[out res] db'] Hpull];
      [lia |].
    exists out, res, db'. split; [done |].
    by apply pull_sorted in Hpull as [? ?].
  - intros fuel.
    destruct (pull fuel db) as [[[out res] db']|] eqn:Hpull; [| done].
    by apply pull_sorted in Hpull as [? ?].
Qed.

End WatermarkThroughout.

(** ** Readers stay usable *)

Section Usable.
Context `{ReportModel} `{Imports}.

Lemma while_true_usable q T json db :
  usable db → usable (while_true q T json db).2.
Proof.
  intros Husable.
  destruct (tmp_read db !! q) as [e|] eqn:He.
  2: { unfold while_true. mred. by rewrite (get_entry_none _ _ He). }
  destruct (next_line e) as [| |row] eqn:Hrow.
  1,2: unfold while_true; mred; by rewrite (get_entry_some _ _ _ He), Hrow.
  destruct (reader_rows e) as [rows|err] eqn:Hrows.
  - rewrite (while_true_stream _ _ _ _ _ _ _ He Hrow Hrows).
    destruct (scan _ _ _ _ _) as [[res stream] saved]. simpl.
    intros p Hp. rewrite filenames_store_saved in Hp.
    rewrite tmp_read_store_saved. simpl.
    destruct (decide (p = q)) as [->|Hne].
    + exists (of_stream stream e), stream. rewrite lookup_insert_eq.
      split; [done |]. apply holds_of_stream.
      by apply (holds_cons_open e row rows).
    + rewrite lookup_insert_ne by done. by apply Husable.
  - unfold while_true. mred.
    rewrite (get_entry_some _ _ _ He), Hrow, Hrows.
    destruct (row_timestamp row) as [t|]; [| done].
    destruct (T <? t); [| done].
    by case_bool_decide.
Qed.

Lemma for_filenames_usable paths T json db :
  usable db → usable (for_filenames paths T json db).2.
Proof.
  revert json db. induction paths as [|p paths IH]; intros json db Hdb; [done |].
  simpl. unfold bind.
  pose proof (while_true_usable p T json db Hdb) as Hstep.
  destruct (while_true p T json db) as [[json'|e] db1]; [| done].
  by apply IH.
Qed.

(** In a store that [connect] has returned from, and after any calls of
    [__next__], however they ended, every registered file is exhausted or
    has a row ahead and a reader that can be advanced. *)
Lemma connect_usable fs db db1 :
  connect fs db = (Ok tt, db1) → usable db1.
Proof.
  intros Hconnect. destruct (filenames db) as [|first others] eqn:Hnames.
  - rewrite connect_eq, Hnames in Hconnect. simpl in Hconnect.
    injection Hconnect as <-. intros p Hp. simpl in Hp. rewrite Hnames in Hp.
    by apply elem_of_nil in Hp.
  - destruct (connect_ok fs db db1 first others Hnames Hconnect)
      as (Hnames1 & Hentries & _).
    intros p Hp. rewrite Hnames1 in Hp.
    destruct (Hentries p Hp) as (lines & _ & Hentry).
    exists (primed p lines), (DictReader lines).
    split; [done | apply holds_primed].
Qed.

Lemma next_usable db : usable db → usable (__next__ db).2.
Proof.
  intros Hdb. unfold __next__. mred.
  pose proof (for_filenames_usable (filenames db) (saved_timestamp db) []
                db Hdb) as Hloop.
  destruct (for_filenames _ _ _ db) as [[json|e] db1]; [| done].
  by destruct json.
Qed.

End Usable.

(** ** Records that are not empty *)

Lemma dict_set_nonempty k v d : dict_set k v d ≠ [].
Proof. destruct d as [|[k' v'] d]; simpl; [done |]. by destruct (String.eqb k k'). Qed.

Lemma deep_union_nonempty_l d1 d2 : d1 ≠ [] → deep_union d1 d2 ≠ [].
Proof.
  unfold deep_union. revert d1.
  induction d2 as [|kv d2 IH]; intros d1 Hd1; [done |].
  simpl. apply IH, dict_set_nonempty.
Qed.

Lemma deep_union_nonempty_r d1 d2 : d2 ≠ [] → deep_union d1 d2 ≠ [].
Proof.
  destruct d2 as [|kv d2]; [done |]. intros _.
  unfold deep_union. simpl.
  apply (deep_union_nonempty_l _ d2), dict_set_nonempty.
Qed.

Section NonEmpty.
Context `{ReportModel} `{Imports}.

(** [dict_merge] is a union: what it returns holds the keys of both. *)
Hypothesis merge_keeps : ∀ d1 d2, d1 ≠ [] → dict_merge d1 d2 ≠ [].
Hypothesis merge_takes : ∀ d1 d2, d2 ≠ [] → dict_merge d1 d2 ≠ [].

Lemma merge_rows_nonempty_l fname rows json :
  json ≠ [] → merge_rows fname rows json ≠ [].
Proof using merge_keeps.
  unfold merge_rows. revert json.
  induction rows as [|row rows IH]; intros json Hjson; [done |].
  simpl. by apply IH, merge_keeps.
Qed.

Lemma merge_files_nonempty_l T streams paths json :
  json ≠ [] → merge_files T streams paths json ≠ [].
Proof using merge_keeps.
  unfold merge_files. revert json.
  induction paths as [|p paths IH]; intros json Hjson; [done |].
  simpl. by apply IH, merge_rows_nonempty_l.
Qed.

(** With a decoder that never returns an empty mapping, the record merged
    for a timestamp of the first file is not empty. *)
Lemma merged_record_nonempty streams p0 others T :
  (∀ fname row, from_csvdb fname row ≠ []) →
  T ∈ time_of <$> streams p0 →
  merged_record streams (p0 :: others) T ≠ [].
Proof using merge_keeps merge_takes.
  intros Hdecoder (row & -> & Hrow)%list_elem_of_fmap.
  change (merge_files (time_of row) streams (p0 :: others) [] ≠ []).
  unfold merge_files. simpl. apply merge_files_nonempty_l.
  assert (row ∈ rows_at (time_of row) (streams p0)) as Hat
    by (by apply list_elem_of_filter).
  destruct (rows_at (time_of row) (streams p0)) as [|r rs];
    [by apply elem_of_nil in Hat |].
  unfold merge_rows. simpl.
  apply (merge_rows_nonempty_l _ rs), merge_takes, Hdecoder.
Qed.

End NonEmpty.

(** ** Merge correctness *)

Section Merge.
Context `{ReportModel} `{Imports}.

Lemma ascending_of_sorted stream :
  Sorted Z.le (time_of <$> stream) → ascending stream.
Proof.
  intros Hsorted%(Sorted_StronglySorted Z.le). unfold ascending.
  induction stream as [|row rows IH]; [constructor |].
  rewrite fmap_cons in Hsorted.
  apply StronglySorted_inv in Hsorted as [Hrows Hall].
  constructor; [by apply IH |]. rewrite Forall_fmap in Hall. exact Hall.
Qed.

Lemma strictly_sorted (l : list Z) :
  StronglySorted Z.le l → NoDup l → StronglySorted Z.lt l.
Proof.
  induction 1 as [|x l Hl IH Hall]; [constructor |].
  intros [Hx Hnodup]%NoDup_cons. constructor; [by apply IH |].
  apply Forall_forall. intros y Hy.
  pose proof (proj1 (Forall_forall _ _) Hall y Hy).
  assert (x ≠ y) by (by intros ->). lia.
Qed.

Lemma elem_of_timestamps stream t :
  t ∈ timestamps stream ↔ t ∈ time_of <$> stream.
Proof.
  unfold timestamps. by rewrite merge_sort_Permutation, elem_of_remove_dups.
Qed.

Lemma timestamps_sorted stream : StronglySorted Z.lt (timestamps stream).
Proof.
  apply strictly_sorted.
  - apply StronglySorted_merge_sort; apply _.
  - unfold timestamps. rewrite merge_sort_Permutation.
    apply NoDup_remove_dups.
Qed.

Lemma timestamps_length stream :
  (length (timestamps stream) ≤ length stream)%nat.
Proof.
  unfold timestamps. rewrite merge_sort_Permutation.
  rewrite <- (length_fmap time_of stream).
  apply submseteq_length, NoDup_submseteq; [apply NoDup_remove_dups |].
  intros t. by rewrite elem_of_remove_dups.
Qed.

(** The first timestamp of a stream in ascending order is the least. *)
Lemma timestamps_head row rows :
  ascending (row :: rows) →
  ∃ Ts, timestamps (row :: rows) = time_of row :: Ts.
Proof.
  intros Hasc.
  pose proof (timestamps_sorted (row :: rows)) as Hsorted.
  assert (time_of row ∈ timestamps (row :: rows)) as Hrow
    by (apply elem_of_timestamps; by left).
  destruct (timestamps (row :: rows)) as [|T Ts] eqn:HTs;
    [by apply elem_of_nil in Hrow |].
  exists Ts. f_equal.
  assert (time_of row ≤ T) as Hle.
  { apply (head_time_least row rows T Hasc), elem_of_timestamps.
    rewrite HTs. by left. }
  apply elem_of_cons in Hrow as [-> | Hrow]; [done |].
  apply StronglySorted_inv in Hsorted as [_ Hlater].
  pose proof (proj1 (Forall_forall _ _) Hlater _ Hrow). lia.
Qed.

(** With a conversion to datetimes that keeps the order, a file sorted by
    the timestamps written in it is sorted by their datetimes. *)
Lemma time_of_raw row :
  has_timestamp row → time_of row = timestamp_to_datetime (raw_timestamp row).
Proof.
  intros [t Ht]. rewrite (time_of_timestamp _ _ Ht).
  unfold row_timestamp, raw_timestamp in *.
  destruct (cells row !! "timestamp") as [[s|]|]; try done.
  destruct (int s); [| done]. destruct (timestamp_error _); [done |].
  simpl. congruence.
Qed.

Lemma sorted_raw_timestamps stream :
  (∀ a b, a ≤ b → timestamp_to_datetime a ≤ timestamp_to_datetime b) →
  Forall has_timestamp stream →
  Sorted Z.le (raw_timestamp <$> stream) →
  Sorted Z.le (time_of <$> stream).
Proof.
  intros Hmono Hts Hsorted.
  assert (time_of <$> stream
          = timestamp_to_datetime <$> (raw_timestamp <$> stream)) as ->.
  { rewrite <- list_fmap_compose. apply Forall_fmap_ext_1.
    eapply Forall_impl; [exact Hts |]. intros row Hrow. by apply time_of_raw. }
  by apply (Sorted_fmap _ Z.le Z.le).
Qed.

(** C1, as amended.  The files of a connected store being in ascending
    order of timestamp, and the deep union of the rows of each timestamp of
    the first registered file being a non-empty record, iterating yields,
    for exactly the sorted distinct timestamps of the first registered file,
    in that order, the deep union of the decoded rows of that timestamp of
    all the registered files; then the stream ends.  The iteration is over
    once [__next__] was called more often than the first file has rows. *)
Theorem merge_correctness (fs : filesystem) (db db1 : CsvDB)
    (primary : string) (others : list string) (fuel : nat) :
  filenames db = primary :: others →
  NoDup (filenames db) →
  connect fs db = (Ok tt, db1) →
  (∀ p, p ∈ filenames db →
     Forall has_timestamp (rows_of fs p)
     ∧ Sorted Z.le (time_of <$> rows_of fs p)) →
  (∀ T, T ∈ timestamps (rows_of fs primary) →
     merged_record (rows_of fs) (filenames db) T ≠ []) →
  (length (rows_of fs primary) < fuel)%nat →
  ∃ db',
    pull fuel db1
    = Some ((λ T, (T, merged_record (rows_of fs) (filenames db) T))
              <$> timestamps (rows_of fs primary),
            Ok tt, db').
Proof.
  intros Hnames Hnodup Hconnect Hfiles Hne Hfuel.
  destruct (connect_ok fs db db1 primary others Hnames Hconnect)
    as (Hnames1 & Hentries & lines & Hopen & Hsaved).
  assert (rows_of fs primary = DictReader lines) as Hrows
    by (unfold rows_of; by rewrite Hopen).
  assert (regular (rows_of fs) (filenames db)) as Hreg.
  { intros p Hp. destruct (Hfiles p Hp) as [Hts Hsorted].
    split; [done | by apply ascending_of_sorted]. }
  rewrite <- Hnames1 in *.
  destruct (pull_tracks primary others (timestamps (rows_of fs primary))
              db1 (rows_of fs) fuel) as (db' & Hpull); try done.
  - intros p Hp. destruct (Hentries p Hp) as (lines' & Hopen' & Hentry).
    exists (primed p lines'). split; [done |].
    unfold rows_of. rewrite Hopen'. apply holds_primed.
  - apply timestamps_sorted.
  - apply elem_of_timestamps.
  - destruct (Hreg primary) as [_ Hasc]; [rewrite Hnames; by left |].
    rewrite Hrows in *. unfold primed in Hsaved.
    destruct (DictReader lines) as [|row rows]; [done |].
    destruct (timestamps_head row rows Hasc) as [Ts ->].
    simpl in Hsaved. by rewrite (time_of_timestamp _ _ Hsaved).
  - pose proof (timestamps_length (rows_of fs primary)). lia.
  - by exists db'.
Qed.

End Merge.

(** A.csv with rows at t=1,2 and B.csv with rows at t=1,3, A registered
    first: records at t=1 and t=2. *)
Lemma merge_correctness_witness :
  ∃ db',
    @pull demo_model py_imports 3
      (@connect py_imports demo_disk (store_with ["A.csv"; "B.csv"])).2
    = Some ((λ T, (T, @merged_record demo_model py_imports
                        (rows_of demo_disk) ["/d/A.csv"; "/d/B.csv"] T))
              <$> [1; 2],
            Ok tt, db').
Proof.
  apply (@merge_correctness demo_model py_imports demo_disk
           (store_with ["A.csv"; "B.csv"])
           (@connect py_imports demo_disk (store_with ["A.csv"; "B.csv"])).2
           "/d/A.csv" ["/d/B.csv"] 3).
  - reflexivity.
  - change (NoDup ["/d/A.csv"; "/d/B.csv"]).
    apply NoDup_cons. split; [| apply NoDup_singleton].
    rewrite list_elem_of_singleton. discriminate.
  - by vm_compute.
  - intros p Hp.
    assert (p = "/d/A.csv" ∨ p = "/d/B.csv") as [-> | ->].
    { vm_compute in Hp. apply elem_of_cons in Hp as [-> | Hp]; [by left |].
      apply elem_of_cons in Hp as [-> | Hp]; [by right |].
      by apply elem_of_nil in Hp. }
    + split.
      * set (rs := rows_of demo_disk "/d/A.csv"). vm_compute in rs. subst rs.
        repeat (apply Forall_cons; split; [eexists; lazy; reflexivity |]).
        by apply Forall_nil.
      * assert (@time_of py_imports <$> rows_of demo_disk "/d/A.csv" = [1; 2])
          as -> by (by vm_compute).
        repeat constructor; lia.
    + split.
      * set (rs := rows_of demo_disk "/d/B.csv"). vm_compute in rs. subst rs.
        repeat (apply Forall_cons; split; [eexists; lazy; reflexivity |]).
        by apply Forall_nil.
      * assert (@time_of py_imports <$> rows_of demo_disk "/d/B.csv" = [1; 3])
          as -> by (by vm_compute).
        repeat constructor; lia.
  - intros T HT.
    assert (T = 1 ∨ T = 2) as [-> | ->].
    { vm_compute in HT. apply elem_of_cons in HT as [-> | HT]; [by left |].
      apply elem_of_cons in HT as [-> | HT]; [by right |].
      by apply elem_of_nil in HT. }
    + by vm_compute.
    + by vm_compute.
  - vm_compute. lia.
Defined.

(** C1, as stated, fails for a decoder that keeps nothing of a row: A.csv
    holds rows, in ascending order, at the timestamps 1 and 2, the store is
    connected, and iterating yields no record. *)
Lemma merge_without_records :
  let db := store_with ["A.csv"] in
  let db1 := (@connect py_imports demo_disk db).2 in
  @connect py_imports demo_disk db = (Ok tt, db1)
  ∧ Sorted Z.le (@time_of py_imports <$> rows_of demo_disk "/d/A.csv")
  ∧ @timestamps py_imports (rows_of demo_disk "/d/A.csv") = [1; 2]
  ∧ (λ r, r.1) <$> @pull silent_model py_imports 3 db1 = Some ([], Ok tt).
Proof.
  cbv zeta. split; [by vm_compute |].
  assert (@time_of py_imports <$> rows_of demo_disk "/d/A.csv" = [1; 2])
    as -> by (by vm_compute).
  split; [repeat constructor; lia |].
  split; by vm_compute.
Qed.

(** ** Building the store *)

Lemma last_char_slash s : last_char (s +:+ "/") = Ok "/"%char.
Proof.
  induction s as [|c s IH]; [done |].
  change (String c s +:+ "/") with (String c (s +:+ "/")).
  simpl. destruct (s +:+ "/") eqn:Hs; [by destruct s | done].
Qed.

Section Registration.
Context `{ReportModel} `{Imports}.

(** X1.  The constructor fails with [IndexError] on the empty path only.
    Otherwise the store it builds has no registered file and no entry, and
    its base path ends with a slash: the path given when that one ends with
    a slash, the path given followed by a slash when it does not. *)
Theorem init_base_path (path : string) :
  match __init__ path with
  | Raise e => e = IndexError ∧ path = ""
  | Ok db =>
      path ≠ ""
      ∧ filenames db = []
      ∧ tmp_read db = ∅
      ∧ last_char (current_path db) = Ok "/"%char
      ∧ (last_char path = Ok "/"%char → current_path db = path)
      ∧ (last_char path ≠ Ok "/"%char → current_path db = path +:+ "/")
  end.
Proof.
  unfold __init__. destruct (last_char path) as [c|e] eqn:Hlast.
  - cbn [filenames tmp_read current_path].
    split; [by intros -> |]. do 2 (split; [done |]).
    destruct (Ascii.eqb_spec c "/"%char) as [-> | Hc].
    + done.
    + split; [apply last_char_slash |]. split; [| done].
      intros [= ->]. done.
  - destruct path as [|c path]; [by injection Hlast as <- |].
    exfalso. clear -Hlast. revert c Hlast.
    induction path as [|c' path IH]; intros c Hlast; [done |].
    by apply (IH c').
Qed.

Lemma add_file_eq filename db :
  filename ≠ "" →
  add_file filename db
  = (Ok tt,
     set_tmp_read
       (<[resolve (current_path db) filename := fresh_entry]> (tmp_read db))
       (set_filenames (filenames db ++ [resolve (current_path db) filename])
                      db)).
Proof. destruct filename as [|c s]; [done |]. intros _. reflexivity. Qed.

Lemma add_file_empty db : add_file "" db = (Raise IndexError, db).
Proof. reflexivity. Qed.

Lemma add_files_ok names :
  Forall (λ n, n ≠ "") names →
  ∀ db, ∃ db',
    add_files names db = (Ok tt, db')
    ∧ filenames db' = filenames db ++ (resolve (current_path db) <$> names)
    ∧ current_path db' = current_path db
    ∧ saved_timestamp db' = saved_timestamp db
    ∧ (∀ p, p ∈ resolve (current_path db) <$> names →
            tmp_read db' !! p = Some fresh_entry)
    ∧ (∀ p, p ∉ resolve (current_path db) <$> names →
            tmp_read db' !! p = tmp_read db !! p).
Proof.
  induction 1 as [|n names Hn _ IH]; intros db.
  { exists db. simpl. rewrite app_nil_r. repeat split; try done.
    intros p Hp. by apply elem_of_nil in Hp. }
  unfold add_files. cbn [for_each]. unfold bind at 1.
  rewrite (add_file_eq n db Hn).
  destruct (IH (set_tmp_read
       (<[resolve (current_path db) n := fresh_entry]> (tmp_read db))
       (set_filenames (filenames db ++ [resolve (current_path db) n]) db)))
    as (db' & Hrun & Hnames & Hpath & Hsaved & Hnew & Hold).
  cbn [filenames current_path saved_timestamp tmp_read set_tmp_read
       set_filenames] in *.
  exists db'. split; [exact Hrun |].
  split; [by rewrite Hnames, <- app_assoc |].
  do 2 (split; [done |]). split.
  - intros p Hp. rewrite fmap_cons in Hp.
    destruct (decide (p ∈ resolve (current_path db) <$> names)) as [Hin|Hout].
    + by apply Hnew.
    + rewrite (Hold p Hout). apply elem_of_cons in Hp as [-> | Hp]; [| done].
      apply lookup_insert_eq.
  - intros p Hp. rewrite fmap_cons, not_elem_of_cons in Hp.
    destruct Hp as [Hne Hout]. rewrite (Hold p Hout).
    by apply lookup_insert_ne.
Qed.

(** X2.  [add_files] registers the names in the order given, after the
    ones already registered: a name that starts with a slash as it is, any
    other one under the base path.  Each gets a fresh entry, the other
    entries stay.  At the first empty name it stops with [IndexError],
    the names before it registered. *)
Theorem add_files_in_order (names rest : list string) (db : CsvDB) :
  Forall (λ n, n ≠ "") names →
  ∃ db',
    add_files names db = (Ok tt, db')
    ∧ add_files (names ++ "" :: rest) db = (Raise IndexError, db')
    ∧ filenames db' = filenames db ++ (resolve (current_path db) <$> names)
    ∧ current_path db' = current_path db
    ∧ saved_timestamp db' = saved_timestamp db
    ∧ (∀ p, p ∈ resolve (current_path db) <$> names →
            tmp_read db' !! p = Some fresh_entry)
    ∧ (∀ p, p ∉ resolve (current_path db) <$> names →
            tmp_read db' !! p = tmp_read db !! p).
Proof.
  intros Hnames.
  destruct (add_files_ok names Hnames db) as (db' & Hrun & Hrest).
  exists db'. split; [done |]. split; [| done].
  unfold add_files in *. by rewrite (for_each_app _ _ _ _ _ Hrun).
Qed.

End Registration.

(** A relative name and an absolute one, added to the store of the
    examples. *)
Lemma add_files_in_order_witness :
  filenames (store_with ["A.csv"; "/abs/B.csv"]) = ["/d/A.csv"; "/abs/B.csv"].
Proof.
  destruct (add_files_in_order ["A.csv"; "/abs/B.csv"] []
              demo_store) as (db' & Hrun & _ & Hnames & _).
  - repeat (apply Forall_cons; split; [discriminate |]). by apply Forall_nil.
  - unfold store_with. rewrite Hrun. exact Hnames.
Defined.

(** ** What the read path leaves alone *)

Section Frames.
Context `{ReportModel} `{Imports}.

Lemma outline_inv db db' :
  outline db' = outline db →
  filenames db' = filenames db
  ∧ current_path db' = current_path db
  ∧ saved_timestamp db' = saved_timestamp db
  ∧ dom (tmp_read db') = dom (tmp_read db).
Proof. unfold outline. by intros [= -> -> -> ->]. Qed.

Lemma connect_frame fs db :
  filenames (connect fs db).2 = filenames db
  ∧ current_path (connect fs db).2 = current_path db
  ∧ dom (tmp_read (connect fs db).2) = dom (tmp_read db)
  ∧ ((connect fs db).1 ≠ Ok tt →
     saved_timestamp (connect fs db).2 = saved_timestamp db).
Proof.
  rewrite connect_eq.
  pose proof (for_each_frame outline (filenames db) close_if_open
                close_if_open_outline db) as H1.
  destruct (for_each (filenames db) close_if_open db) as [[[]|e1] db1];
    simpl in H1; apply outline_inv in H1 as (Hf1 & Hp1 & Hs1 & Hd1);
    [| done].
  pose proof (for_each_frame outline (filenames db) (open_and_prime fs)
                (open_and_prime_outline fs) db1) as H2.
  destruct (for_each (filenames db) (open_and_prime fs) db1) as [[[]|e2] db2];
    simpl in H2; apply outline_inv in H2 as (Hf2 & Hp2 & Hs2 & Hd2);
    [| simpl; by rewrite Hf2, Hp2, Hs2, Hd2].
  assert (filenames db2 = filenames db ∧ current_path db2 = current_path db
          ∧ dom (tmp_read db2) = dom (tmp_read db)
          ∧ saved_timestamp db2 = saved_timestamp db) as (Hf & Hp & Hd & Hs).
  { by rewrite Hf2, Hp2, Hs2, Hd2. }
  destruct (filenames db) as [|first others]; [done |].
  destruct (tmp_read db2 !! first) as [e|]; [| done].
  destruct (lookahead_timestamp (next_line e)); done.
Qed.

Lemma while_true_frame p T json db :
  filenames (while_true p T json db).2 = filenames db
  ∧ current_path (while_true p T json db).2 = current_path db
  ∧ dom (tmp_read (while_true p T json db).2) = dom (tmp_read db)
  ∧ ∀ q, q ≠ p →
         tmp_read (while_true p T json db).2 !! q = tmp_read db !! q.
Proof.
  destruct (tmp_read db !! p) as [e|] eqn:He.
  2: { unfold while_true. mred. by rewrite (get_entry_none _ _ He). }
  destruct (next_line e) as [| |row] eqn:Hrow.
  1,2: unfold while_true; mred; by rewrite (get_entry_some _ _ _ He), Hrow.
  destruct (reader_rows e) as [rows|err] eqn:Hrows.
  - rewrite (while_true_stream _ _ _ _ _ _ _ He Hrow Hrows).
    destruct (scan _ _ _ _ _) as [[res stream] saved]. simpl.
    rewrite filenames_store_saved, tmp_read_store_saved.
    split; [done |]. split; [by destruct saved |]. split.
    + simpl. apply dom_insert_lookup_L. by rewrite He.
    + intros q Hq. simpl. by apply lookup_insert_ne.
  - unfold while_true. mred.
    rewrite (get_entry_some _ _ _ He), Hrow, Hrows.
    destruct (row_timestamp row) as [t|]; [| done].
    destruct (T <? t); [| done].
    by case_bool_decide.
Qed.

Lemma for_filenames_frame paths T json db :
  filenames (for_filenames paths T json db).2 = filenames db
  ∧ current_path (for_filenames paths T json db).2 = current_path db
  ∧ dom (tmp_read (for_filenames paths T json db).2) = dom (tmp_read db)
  ∧ ∀ q, q ∉ paths →
         tmp_read (for_filenames paths T json db).2 !! q = tmp_read db !! q.
Proof.
  revert json db. induction paths as [|p paths IH]; intros json db; [done |].
  simpl. unfold bind.
  destruct (while_true_frame p T json db) as (Hf & Hp & Hd & Hq).
  destruct (while_true p T json db) as [[json'|e] db1]; simpl in *.
  - destruct (IH json' db1) as (Hf1 & Hp1 & Hd1 & Hq1).
    rewrite Hf1, Hp1, Hd1. do 3 (split; [done |]).
    intros q Hout. apply not_elem_of_cons in Hout as [Hne Hout].
    by rewrite (Hq1 q Hout), (Hq q Hne).
  - do 3 (split; [done |]). intros q Hout.
    apply not_elem_of_cons in Hout as [Hne _]. by apply Hq.
Qed.

Lemma next_frame db :
  filenames (__next__ db).2 = filenames db
  ∧ current_path (__next__ db).2 = current_path db
  ∧ dom (tmp_read (__next__ db).2) = dom (tmp_read db)
  ∧ ∀ q, q ∉ filenames db →
         tmp_read (__next__ db).2 !! q = tmp_read db !! q.
Proof.
  unfold __next__. mred.
  pose proof (for_filenames_frame (filenames db) (saved_timestamp db) [] db)
    as Hloop.
  destruct (for_filenames _ _ _ db) as [[json|e] db1]; [| done].
  by destruct json.
Qed.

Lemma registered_dom db db' :
  filenames db' = filenames db →
  dom (tmp_read db') = dom (tmp_read db) →
  registered db → registered db'.
Proof.
  intros Hf Hd Hdb p Hp. rewrite Hf in Hp.
  apply elem_of_dom. rewrite Hd. apply elem_of_dom. by apply Hdb.
Qed.

Lemma add_file_registered filename db :
  registered db → registered (add_file filename db).2.
Proof.
  intros Hdb. destruct (decide (filename = "")) as [-> | Hne]; [done |].
  rewrite (add_file_eq filename db Hne). intros p Hp. simpl in *.
  destruct (decide (p = resolve (current_path db) filename)) as [-> | Hp'].
  - by rewrite lookup_insert_eq.
  - rewrite lookup_insert_ne by done. apply Hdb.
    apply elem_of_app in Hp as [Hp | Hp]; [done |].
    by apply list_elem_of_singleton in Hp.
Qed.

(** X3.  Every registered name has its entry in [tmp_read]: so it is in
    the store the constructor builds, and every method keeps it so,
    however the call ends. *)
Theorem registered_throughout (fs : filesystem) (filename : string)
    (names : list string) (db : CsvDB) :
  (∀ path db0, __init__ path = Ok db0 → registered db0)
  ∧ registered (clean_files db).2
  ∧ (registered db →
     registered (add_file filename db).2
     ∧ registered (add_files names db).2
     ∧ registered (connect fs db).2
     ∧ registered (__iter__ fs db).2
     ∧ registered (__next__ db).2).
Proof.
  split.
  { intros path db0. unfold __init__.
    destruct (last_char path); [| done]. intros [= <-] p Hp.
    by apply elem_of_nil in Hp. }
  split.
  { intros p Hp. by apply elem_of_nil in Hp. }
  intros Hdb. split; [by apply add_file_registered |]. split.
  { clear filename. revert db Hdb. unfold add_files.
    induction names as [|n names IH]; intros db Hdb; [done |].
    simpl. unfold bind.
    pose proof (add_file_registered n db Hdb) as Hstep.
    destruct (add_file n db) as [[[]|e] db1]; [by apply IH | done]. }
  destruct (connect_frame fs db) as (Hf & _ & Hd & _).
  destruct (next_frame db) as (Hf' & _ & Hd' & _).
  split; [by apply (registered_dom db) |].
  split; [by apply (registered_dom db) |].
  by apply (registered_dom db).
Qed.

(** X4.  A store with no registered file, as the constructor builds it
    and as [clean_files] leaves any store, connects without touching
    anything and yields no record: [__next__] raises [StopIteration] at
    once and leaves the store as it is. *)
Theorem empty_store_yields_nothing (fs : filesystem) (db : CsvDB)
    (fuel : nat) :
  filenames db = [] →
  connect fs db = (Ok tt, db)
  ∧ __next__ db = (Raise StopIteration, db)
  ∧ pull (S fuel) db = Some ([], Ok tt, db)
  ∧ ∀ db0, filenames (clean_files db0).2 = []
           ∧ tmp_read (clean_files db0).2 = ∅.
Proof.
  intros Hnames.
  assert (__next__ db = (Raise StopIteration, db)) as Hnext.
  { unfold __next__. mred. by rewrite Hnames. }
  split; [by rewrite connect_eq, Hnames |]. split; [done |].
  split; [| done]. simpl. by rewrite Hnext.
Qed.

(** X5.  Calling [__next__] when the first registered file was added and
    never connected raises [TypeError], and leaves the store as it was. *)
Theorem next_before_connect (db : CsvDB) (first : string)
    (others : list string) :
  filenames db = first :: others →
  tmp_read db !! first = Some fresh_entry →
  __next__ db = (Raise TypeError, db).
Proof.
  intros Hnames Hentry. unfold __next__. mred. rewrite Hnames.
  cbn [for_filenames]. unfold while_true. mred.
  by rewrite (get_entry_some _ _ _ Hentry).
Qed.

End Frames.

(** The store with A.csv registered, connected. *)
Lemma registered_throughout_witness :
  registered (@connect py_imports demo_disk (store_with ["A.csv"])).2.
Proof.
  apply (@registered_throughout demo_model py_imports demo_disk "" []
           (store_with ["A.csv"])).
  intros p Hp. vm_compute in Hp.
  apply list_elem_of_singleton in Hp as ->. by eexists.
Defined.

(** A store with two files registered, then cleaned. *)
Lemma empty_store_yields_nothing_witness :
  let db := (clean_files (store_with ["A.csv"; "B.csv"])).2 in
  @connect py_imports demo_disk db = (Ok tt, db)
  ∧ @__next__ demo_model py_imports db = (Raise StopIteration, db).
Proof.
  cbv zeta.
  destruct (@empty_store_yields_nothing demo_model py_imports demo_disk
              (clean_files (store_with ["A.csv"; "B.csv"])).2 0 eq_refl)
    as (Hconnect & Hnext & _).
  by split.
Defined.

(** A.csv and B.csv registered, [connect] not called. *)
Lemma next_before_connect_witness :
  @__next__ demo_model py_imports (store_with ["A.csv"; "B.csv"])
  = (Raise TypeError, store_with ["A.csv"; "B.csv"]).
Proof.
  apply (@next_before_connect demo_model py_imports
           (store_with ["A.csv"; "B.csv"]) "/d/A.csv" ["/d/B.csv"]).
  - reflexivity.
  - by vm_compute.
Defined.

(** ** Rows as the reader makes them *)

Lemma zip_row_names (names : list string) (line : list string) :
  (zip names (Some <$> line)
     ++ ((λ k, (k, None : option string)) <$> drop (length line) names)).*1
  = names.
Proof.
  revert line. induction names as [|k names IH]; intros line.
  { by destruct line. }
  destruct line as [|c line]; simpl.
  - f_equal. rewrite <- list_fmap_compose. apply list_fmap_id.
  - f_equal. apply IH.
Qed.

Lemma fold_insert_dom (l : list (string * option string))
    (m : gmap string (option string)) k :
  is_Some (fold_left (λ m kv, <[kv.1 := kv.2]> m) l m !! k)
  ↔ k ∈ l.*1 ∨ is_Some (m !! k).
Proof.
  revert m. induction l as [|[k' v] l IH]; intros m; simpl.
  { rewrite elem_of_nil. tauto. }
  rewrite IH, elem_of_cons, lookup_insert_is_Some. 
  destruct (decide (k = k')); intuition congruence.
Qed.

(** A row of the reader has a cell for each field name and no other. *)
Lemma zip_row_dom names line k :
  is_Some (cells (zip_row names line) !! k) ↔ k ∈ names.
Proof.
  unfold zip_row. cbn [cells]. rewrite fold_insert_dom, zip_row_names.
  rewrite lookup_empty, is_Some_alt. tauto.
Qed.

Lemma DictReader_dom names body row k :
  row ∈ DictReader (names :: body) →
  is_Some (cells row !! k) ↔ k ∈ names.
Proof.
  simpl. intros (line & -> & _)%list_elem_of_fmap. apply zip_row_dom.
Qed.

Section Priming.
Context `{ReportModel} `{Imports}.


Lemma check_common_keys_missing keys row k :
  k ∈ keys → cells row !! k = None →
  check_common_keys keys (Row row) = Raise CsvBadCommonKeysError.
Proof.
  intros Hk Hnone. induction keys as [|k' keys IH];
    [by apply elem_of_nil in Hk |].
  simpl. destruct (cells row !! k') as [c|] eqn:Hk'; [| done].
  apply elem_of_cons in Hk as [-> | Hk]; [congruence | by apply IH].
Qed.

Lemma check_common_keys_inv keys row :
  check_common_keys keys (Row row) = Ok tt →
  ∀ k, k ∈ keys → is_Some (cells row !! k).
Proof.
  induction keys as [|k' keys IH]; intros Hcheck k Hk;
    [by apply elem_of_nil in Hk |].
  simpl in Hcheck. destruct (cells row !! k') as [c|] eqn:Hk'; [| done].
  apply elem_of_cons in Hk as [-> | Hk]; [by rewrite Hk' | by apply IH].
Qed.

Lemma rows_of_open fs p lines :
  open_read fs p = Ok lines → rows_of fs p = DictReader lines.
Proof. unfold rows_of. by intros ->. Qed.

Lemma next_line_primed p lines :
  next_line (primed p lines)
  = match DictReader lines with [] => Exhausted | row :: _ => Row row end.
Proof. unfold primed. by destruct (DictReader lines). Qed.

Lemma close_loop_other l p :
  p ∉ l →
  ∀ db, tmp_read (for_each l close_if_open db).2 !! p = tmp_read db !! p.
Proof.
  induction l as [|x l IH]; intros Hp db; [done |].
  apply not_elem_of_cons in Hp as [Hne Hp]. simpl. unfold bind.
  rewrite close_if_open_eq. destruct (tmp_read db !! x) as [ex|]; [| done].
  rewrite (IH Hp). destruct (file ex); [| done].
  simpl. by apply lookup_insert_ne.
Qed.

(** The store [connect] leaves when it returns, field by field. *)
Lemma connect_result fs db db1 :
  connect fs db = (Ok tt, db1) →
  filenames db1 = filenames db
  ∧ current_path db1 = current_path db
  ∧ (∀ p, p ∈ filenames db →
       ∃ lines, open_read fs p = Ok lines
                ∧ tmp_read db1 !! p = Some (primed p lines)
                ∧ check_common_keys KEYS_COMMON (next_line (primed p lines))
                  = Ok tt)
  ∧ (∀ p, p ∉ filenames db → tmp_read db1 !! p = tmp_read db !! p)
  ∧ match filenames db with
    | [] => saved_timestamp db1 = saved_timestamp db
    | first :: _ =>
        ∃ lines, open_read fs first = Ok lines
                 ∧ lookahead_timestamp (next_line (primed first lines))
                   = Ok (saved_timestamp db1)
    end.
Proof.
  rewrite connect_eq.
  pose proof (for_each_frame outline (filenames db) close_if_open
                close_if_open_outline db) as Hclose.
  pose proof (λ p Hp, close_loop_other (filenames db) p Hp db) as Hother.
  destruct (for_each _ close_if_open db) as [[[]|e1] dbc]; [| done].
  simpl in Hclose, Hother.
  apply outline_inv in Hclose as (Hfc & Hpc & Hsc & _).
  destruct (for_each _ (open_and_prime fs) dbc) as [[[]|e2] dbp] eqn:Hloop;
    [| done].
  apply prime_loop_ok in Hloop as (Hout & Hin & Hnotin).
  apply outline_inv in Hout as (Hfp & Hpp & Hsp & _).
  assert (∀ p, p ∉ filenames db → tmp_read dbp !! p = tmp_read db !! p)
    as Hrest.
  { intros p Hp. by rewrite (Hnotin p Hp), (Hother p Hp). }
  destruct (filenames db) as [|first others] eqn:Hnames.
  { intros [= <-]. split; [congruence |]. split; [congruence |].
    split; [intros p Hp; by apply elem_of_nil in Hp |].
    split; [done | congruence]. }
  destruct (Hin first) as (lines & Hopen & Hentry & _); [by left |].
  rewrite Hentry.
  destruct (lookahead_timestamp _) as [t|] eqn:Ht; [| done].
  intros [= <-]. simpl.
  split; [congruence |]. split; [congruence |]. split; [done |].
  split; [done |]. by exists lines.
Qed.

(** [connect] returns on a store whose registered files have their entry,
    open, hold the common keys, and the first of which starts with a row
    that has a timestamp. *)
Lemma connect_succeeds fs db :
  registered db →
  Forall (primes fs) (filenames db) →
  match filenames db with
  | [] => True
  | first :: _ =>
      ∃ lines t, open_read fs first = Ok lines
                 ∧ lookahead_timestamp (next_line (primed first lines)) = Ok t
  end →
  ∃ db1, connect fs db = (Ok tt, db1).
Proof.
  intros Hdb Hprimes Hfirst. rewrite connect_eq.
  destruct (close_loop_ok (filenames db) db Hdb) as (dbc & -> & Hout).
  apply outline_inv in Hout as (_ & _ & _ & Hdom).
  destruct (prime_loop_primes fs (filenames db) dbc) as (dbp & Hloop & _);
    [| done |].
  { intros p Hp. apply elem_of_dom. rewrite Hdom. by apply elem_of_dom, Hdb. }
  rewrite Hloop. apply prime_loop_ok in Hloop as (_ & Hin & _).
  destruct (filenames db) as [|first others]; [by eauto |].
  destruct Hfirst as (lines & t & Hopen & Ht).
  destruct (Hin first) as (lines' & Hopen' & -> & _); [by left |].
  assert (lines' = lines) as -> by congruence.
  rewrite Ht. by eauto.
Qed.

(** X6.  When [connect] returns, every registered file is open with its
    first row as the lookahead and the following rows in its reader, that
    first row has a cell for each common key, the entries of other paths
    are as they were, and the watermark is the timestamp of the first row
    of the first registered file. *)
Theorem connect_primes_every_file (fs : filesystem) (db db1 : CsvDB) :
  connect fs db = (Ok tt, db1) →
  filenames db1 = filenames db
  ∧ current_path db1 = current_path db
  ∧ (∀ p, p ∈ filenames db →
       ∃ e, tmp_read db1 !! p = Some e
            ∧ holds e (rows_of fs p)
            ∧ file e = Some {| name := p; closed := false |}
            ∧ ∀ row k, head (rows_of fs p) = Some row → k ∈ KEYS_COMMON →
                       is_Some (cells row !! k))
  ∧ (∀ p, p ∉ filenames db → tmp_read db1 !! p = tmp_read db !! p)
  ∧ match filenames db with
    | [] => saved_timestamp db1 = saved_timestamp db
    | first :: _ =>
        ∃ row, head (rows_of fs first) = Some row
               ∧ row_timestamp row = Ok (saved_timestamp db1)
    end.
Proof.
  intros (Hf & Hp & Hin & Hout & Hsaved)%connect_result.
  do 2 (split; [done |]). split; [| split; [done |]].
  - intros p Hmem. destruct (Hin p Hmem) as (lines & Hopen & Hentry & Hcheck).
    exists (primed p lines). split; [done |].
    rewrite (rows_of_open _ _ _ Hopen). split; [apply holds_primed |].
    split; [unfold primed; by rewrite file_of_stream |].
    intros row k Hhead Hk. rewrite next_line_primed in Hcheck.
    destruct (DictReader lines) as [|row' rows]; [done |].
    injection Hhead as ->. by apply (check_common_keys_inv KEYS_COMMON).
  - destruct (filenames db) as [|first others]; [done |].
    destruct Hsaved as (lines & Hopen & Ht).
    rewrite (rows_of_open _ _ _ Hopen). rewrite next_line_primed in Ht.
    destruct (DictReader lines) as [|row rows]; [done |]. by exists row.
Qed.

(** X7.  A registered file whose header line lacks one of the common keys,
    and that holds a row, makes [connect] raise [CsvBadCommonKeysError]
    when the files registered before it went through. *)
Theorem connect_missing_common_key (fs : filesystem) (db : CsvDB)
    (before : list string) (path : string) (after : list string)
    (names : record) (body : list record) (key : string) :
  filenames db = before ++ path :: after →
  registered db →
  Forall (primes fs) before →
  open_read fs path = Ok (names :: body) →
  DictReader (names :: body) ≠ [] →
  key ∈ KEYS_COMMON →
  key ∉ names →
  (connect fs db).1 = Raise CsvBadCommonKeysError.
Proof.
  intros Hnames Hdb Hbefore Hopen Hrows Hkey Hmissing. rewrite connect_eq.
  destruct (close_loop_ok (filenames db) db Hdb) as (dbc & -> & Hout).
  apply outline_inv in Hout as (_ & _ & _ & Hdom).
  assert (∀ p, p ∈ filenames db → is_Some (tmp_read dbc !! p)) as Hdbc.
  { intros p Hp. apply elem_of_dom. rewrite Hdom. by apply elem_of_dom, Hdb. }
  destruct (prime_loop_primes fs before dbc) as (dbb & Hloop & Hout');
    [| done |].
  { intros p Hp. apply Hdbc. rewrite Hnames, elem_of_app. auto. }
  apply outline_inv in Hout' as (_ & _ & _ & Hdom').
  rewrite Hnames, (for_each_app _ _ _ _ _ Hloop). simpl. unfold bind.
  rewrite open_and_prime_eq, Hopen.
  destruct (tmp_read dbb !! path) as [e|] eqn:He.
  2: { apply not_elem_of_dom in He. rewrite Hdom' in He.
       exfalso. apply He, elem_of_dom, Hdbc.
       rewrite Hnames, elem_of_app, elem_of_cons. auto. }
  rewrite next_line_primed.
  destruct (DictReader (names :: body)) as [|row rows] eqn:Hreader; [done |].
  rewrite (check_common_keys_missing _ _ key Hkey); [done |].
  apply eq_None_not_Some. intros Hsome. apply Hmissing.
  apply (DictReader_dom names body row key); [| done].
  rewrite Hreader. by left.
Qed.

(** X8.  [connect], however it ends, keeps the list of registered files,
    the base path and the set of paths that have an entry; when it raises,
    the watermark is as it was. *)
Theorem connect_keeps_registration (fs : filesystem) (db : CsvDB) :
  filenames (connect fs db).2 = filenames db
  ∧ current_path (connect fs db).2 = current_path db
  ∧ dom (tmp_read (connect fs db).2) = dom (tmp_read db)
  ∧ match (connect fs db).1 with
    | Ok _ => True
    | Raise _ => saved_timestamp (connect fs db).2 = saved_timestamp db
    end.
Proof.
  destruct (connect_frame fs db) as (Hf & Hp & Hd & Hs).
  do 3 (split; [done |]).
  destruct (connect fs db).1 as [[]|e] eqn:Hres; [done |]. by apply Hs.
Qed.

End Priming.

(** ** Starting over, and iterations that cannot fail *)

Lemma CsvDB_eq (a b : CsvDB) :
  filenames a = filenames b → current_path a = current_path b →
  tmp_read a = tmp_read b → saved_timestamp a = saved_timestamp b → a = b.
Proof. destruct a, b. simpl. by intros -> -> -> ->. Qed.

Section Rewind.
Context `{ReportModel} `{Imports}.

Lemma steps_frame n db :
  filenames (steps n db) = filenames db
  ∧ current_path (steps n db) = current_path db
  ∧ dom (tmp_read (steps n db)) = dom (tmp_read db)
  ∧ ∀ q, q ∉ filenames db → tmp_read (steps n db) !! q = tmp_read db !! q.
Proof.
  induction n as [|n (Hf & Hp & Hd & Hq)]; [done |].
  change (steps (S n) db) with (__next__ (steps n db)).2.
  destruct (next_frame (steps n db)) as (Hf' & Hp' & Hd' & Hq').
  rewrite Hf', Hp', Hd'. do 3 (split; [done |]).
  intros q Hout. rewrite Hq' by (by rewrite Hf). by apply Hq.
Qed.

Lemma steps_no_file n db : filenames db = [] → steps n db = db.
Proof.
  intros Hnames. induction n as [|n IH]; [done |].
  change (steps (S n) db) with (__next__ (steps n db)).2. rewrite IH.
  unfold __next__. mred. by rewrite Hnames.
Qed.

(** X9.  [__iter__] starts over: on a store it has returned from, after
    any number of calls of [__next__] (none, or some, or all there are),
    it returns again and leaves the store exactly as it left it the first
    time. *)
Theorem iter_rewinds (fs : filesystem) (db db1 : CsvDB) (n : nat) :
  __iter__ fs db = (Ok tt, db1) →
  __iter__ fs (steps n db1) = (Ok tt, db1).
Proof.
  unfold __iter__. intros Hconnect.
  destruct (connect_result fs db db1 Hconnect)
    as (Hf & Hp & Hin & Hout & Hsaved).
  destruct (steps_frame n db1) as (Hf' & Hp' & Hd' & Hq').
  destruct (connect_succeeds fs (steps n db1)) as [db2 Hagain].
  - intros p Hp0. rewrite Hf', Hf in Hp0. apply elem_of_dom. rewrite Hd'.
    apply elem_of_dom. destruct (Hin p Hp0) as (lines & _ & -> & _).
    by eexists.
  - rewrite Hf', Hf. apply Forall_forall. intros p Hp0.
    destruct (Hin p Hp0) as (lines & Hopen & _ & Hcheck). by exists lines.
  - rewrite Hf', Hf. destruct (filenames db) as [|first others]; [done |].
    destruct Hsaved as (lines & Hopen & Ht). by eauto.
  - rewrite Hagain. f_equal.
    destruct (connect_result fs _ db2 Hagain)
      as (Hf2 & Hp2 & Hin2 & Hout2 & Hsaved2).
    rewrite Hf', Hf in Hf2, Hin2, Hout2, Hsaved2. rewrite Hp', Hp in Hp2.
    apply CsvDB_eq; [congruence | congruence | |].
    + apply map_eq. intros p.
      destruct (decide (p ∈ filenames db)) as [Hmem|Hmem].
      * destruct (Hin p Hmem) as (lines & Hopen & -> & _).
        destruct (Hin2 p Hmem) as (lines2 & Hopen2 & -> & _). congruence.
      * rewrite (Hout2 p Hmem). apply Hq'. by rewrite Hf.
    + destruct (filenames db) as [|first others] eqn:Hnames.
      * rewrite Hsaved2, steps_no_file; [done | congruence].
      * destruct Hsaved as (lines & Hopen & Ht).
        destruct Hsaved2 as (lines2 & Hopen2 & Ht2). congruence.
Qed.

End Rewind.

(** A.csv and B.csv: connected, two records pulled, connected again. *)
Lemma iter_rewinds_witness :
  let db1 := (@__iter__ py_imports demo_disk (store_with ["A.csv"; "B.csv"])).2 in
  @__iter__ py_imports demo_disk (@steps demo_model py_imports 2 db1)
  = (Ok tt, db1).
Proof.
  cbv zeta.
  apply (@iter_rewinds demo_model py_imports demo_disk
           (store_with ["A.csv"; "B.csv"])).
  by vm_compute.
Defined.

Section Soundness.
Context `{ReportModel} `{Imports}.

Lemma scan_timed T primary fname stream json :
  Forall has_timestamp stream →
  ∃ json' stream' saved,
    scan T primary fname stream json = (Ok json', stream', saved)
    ∧ Forall has_timestamp stream'.
Proof.
  intros Hall. revert json.
  induction Hall as [|row rows [t Ht] Hrows IH]; intros json.
  { exists json, [], None. split; [done | by apply Forall_nil]. }
  simpl. rewrite Ht. destruct (T <? t).
  - eexists _, _, _. split; [done |].
    apply Forall_cons. split; [by exists t | done].
  - apply IH.
Qed.

Lemma while_true_timed p T json db :
  timed db → p ∈ filenames db →
  ∃ json', (while_true p T json db).1 = Ok json'
           ∧ timed (while_true p T json db).2.
Proof.
  intros Hdb Hp. destruct (Hdb p Hp) as (e & stream & He & Hholds & Hall).
  destruct stream as [|row rows].
  { simpl in Hholds. exists json.
    unfold while_true. mred. by rewrite (get_entry_some _ _ _ He), Hholds. }
  destruct Hholds as [Hrow Hrows].
  rewrite (while_true_stream _ _ _ _ _ _ _ He Hrow Hrows).
  destruct (scan_timed T (bool_decide (head (filenames db) = Some p))
              (basename p) (row :: rows) json Hall)
    as (json' & stream' & saved & -> & Hall').
  exists json'. split; [done |]. simpl.
  intros q Hq. rewrite filenames_store_saved in Hq.
  rewrite tmp_read_store_saved. simpl in *.
  destruct (decide (q = p)) as [->|Hne].
  - exists (of_stream stream' e), stream'. rewrite lookup_insert_eq.
    split; [done |]. split; [| done]. apply holds_of_stream.
    by apply (holds_cons_open e row rows).
  - rewrite lookup_insert_ne by done. by apply Hdb.
Qed.

Lemma for_filenames_timed paths T :
  ∀ json db,
    timed db → paths ⊆ filenames db →
    ∃ json', (for_filenames paths T json db).1 = Ok json'
             ∧ timed (for_filenames paths T json db).2.
Proof.
  induction paths as [|p paths IH]; intros json db Hdb Hsub.
  { by exists json. }
  simpl. unfold bind.
  destruct (while_true_timed p T json db Hdb) as (json1 & Hres & Hdb1).
  { apply Hsub. by left. }
  destruct (while_true_frame p T json db) as (Hf & _).
  destruct (while_true p T json db) as [res db1]. simpl in *. subst res.
  apply IH; [done |]. rewrite Hf. intros q Hq. apply Hsub. by right.
Qed.

Lemma next_timed db :
  timed db →
  ((∃ json, (__next__ db).1 = Ok json)
   ∨ (__next__ db).1 = Raise StopIteration)
  ∧ timed (__next__ db).2.
Proof.
  intros Hdb. unfold __next__. mred.
  destruct (for_filenames_timed (filenames db) (saved_timestamp db) [] db Hdb)
    as (json & Hres & Hdb1); [done |].
  destruct (for_filenames _ _ _ db) as [res db1]. simpl in *. subst res.
  destruct json; simpl; eauto.
Qed.

Lemma pull_timed fuel :
  ∀ db out res db',
    timed db → pull fuel db = Some (out, res, db') →
    res = Ok tt ∧ timed db'.
Proof.
  induction fuel as [|fuel IH]; intros db out res db' Hdb; [done |].
  simpl. destruct (next_timed db Hdb) as [Hres Hdb1].
  destruct (__next__ db) as [[json|e] db1]; simpl in *.
  - destruct (pull fuel db1) as [[[out1 res1] db2]|] eqn:Hpull; [| done].
    intros [= _ <- <-]. by apply (IH db1 out1).
  - destruct Hres as [[json Hres] | [= ->]]; [done |]. by intros [= _ <- <-].
Qed.

Lemma connect_timed fs db db1 :
  connect fs db = (Ok tt, db1) →
  (∀ p, p ∈ filenames db → Forall has_timestamp (rows_of fs p)) →
  timed db1.
Proof.
  intros (Hf & _ & Hin & _)%connect_result Hrows p Hp. rewrite Hf in Hp.
  destruct (Hin p Hp) as (lines & Hopen & Hentry & _).
  exists (primed p lines), (DictReader lines). split; [done |].
  split; [apply holds_primed |].
  rewrite <- (rows_of_open _ _ _ Hopen). by apply Hrows.
Qed.


Lemma next_backlog_le db : (backlog (__next__ db).2 ≤ backlog db)%nat.
Proof.
  unfold __next__. mred.
  destruct (for_filenames_backlog (filenames db) (saved_timestamp db) [] db)
    as [Hle _].
  destruct (for_filenames _ _ _ db) as [[json|e] db1]; [| done].
  by destruct json.
Qed.

Lemma pull_backlog fuel :
  ∀ db out res db',
    pull fuel db = Some (out, res, db') →
    (length out + backlog db' ≤ backlog db)%nat.
Proof.
  induction fuel as [|fuel IH]; intros db out res db'; [done |].
  simpl. pose proof (next_backlog db) as Hlt.
  pose proof (next_backlog_le db) as Hle.
  destruct (__next__ db) as [[json|e] db1]; simpl in *.
  - destruct (pull fuel db1) as [[[out1 res1] db2]|] eqn:Hpull; [| done].
    intros [= <- _ <-]. specialize (IH _ _ _ _ Hpull).
    specialize (Hlt json eq_refl). simpl. lia.
  - destruct e; intros [= <- _ <-]; simpl; lia.
Qed.

(** X11.  Iterating any store ends, and yields at most as many records
    as the entries of the store had rows to give: each record yielded
    takes at least one row out of a reader. *)
Theorem yields_bounded_by_rows (db : CsvDB) :
  ∃ out res db',
    pull (S (backlog db)) db = Some (out, res, db')
    ∧ (length out + backlog db' ≤ backlog db)%nat.
Proof.
  destruct (pull_terminates (S (backlog db)) db) as [[[out res] db'] Hpull];
    [lia |].
  exists out, res, db'. split; [done |]. by apply (pull_backlog _ _ _ _ _ Hpull).
Qed.

Lemma while_true_drained p json db :
  drained db → p ∈ filenames db →
  while_true p (saved_timestamp db) json db = (Ok json, db).
Proof.
  intros Hdb Hp.
  destruct (Hdb p Hp) as (e & He & [Hend | (row & t & Hrow & Ht & Hlt & Hp0)]).
  { unfold while_true. mred. by rewrite (get_entry_some _ _ _ He), Hend. }
  apply Z.ltb_lt in Hlt.
  destruct (reader_rows e) as [rows|err] eqn:Hrows.
  - rewrite (while_true_stream _ _ _ _ _ _ _ He Hrow Hrows).
    cbn [scan]. rewrite Ht, Hlt. rewrite bool_decide_false by done.
    cbv beta iota zeta. unfold store_saved.
    rewrite (of_stream_holds _ _ _ Hrow Hrows), insert_id by done.
    by rewrite set_tmp_read_id.
  - unfold while_true. mred.
    rewrite (get_entry_some _ _ _ He), Hrow, Hrows, Ht, Hlt.
    by rewrite bool_decide_false.
Qed.

Lemma for_filenames_drained paths json db :
  drained db → paths ⊆ filenames db →
  for_filenames paths (saved_timestamp db) json db = (Ok json, db).
Proof.
  intros Hdb. induction paths as [|p paths IH]; intros Hsub; [done |].
  simpl. unfold bind. rewrite while_true_drained; [| done | apply Hsub; by left].
  apply IH. intros q Hq. apply Hsub. by right.
Qed.

Lemma next_drained db : drained db → __next__ db = (Raise StopIteration, db).
Proof. intros Hdb. unfold __next__. mred. by rewrite for_filenames_drained. Qed.

(** X12.  Once every registered file is exhausted, or is not the first
    one and has its next row after the watermark, the iterator stays
    exhausted: [__next__] raises [StopIteration] and leaves the store as
    it is, at every call. *)
Theorem exhausted_stays_exhausted (db : CsvDB) (n : nat) :
  drained db →
  __next__ db = (Raise StopIteration, db)
  ∧ steps n db = db
  ∧ __next__ (steps n db) = (Raise StopIteration, steps n db).
Proof.
  intros Hdb. pose proof (next_drained db Hdb) as Hnext.
  assert (steps n db = db) as Hsame.
  { induction n as [|n IH]; [done |].
    change (steps (S n) db) with (__next__ (steps n db)).2.
    by rewrite IH, Hnext. }
  by rewrite Hsame.
Qed.

End Soundness.

(** ** Paths and base names *)

Lemma has_slash_app a b : has_slash (a +:+ b) = has_slash a || has_slash b.
Proof.
  induction a as [|c a IH]; [done |].
  change (String c a +:+ b) with (String c (a +:+ b)). simpl.
  by destruct (Ascii.eqb c "/"%char).
Qed.

Lemma last_char_has_slash s : last_char s = Ok "/"%char → has_slash s = true.
Proof.
  induction s as [|c s IH]; [done |]. simpl.
  destruct s as [|c' s]; [intros [= ->]; done |].
  intros Hlast. rewrite (IH Hlast). by destruct (Ascii.eqb c "/"%char).
Qed.

(** The base name of a name put under a directory is the name. *)
Lemma basename_under dir name :
  last_char dir = Ok "/"%char → has_slash name = false →
  basename (dir +:+ name) = name.
Proof.
  intros Hdir Hname. induction dir as [|c dir IH]; [done |].
  change (String c dir +:+ name) with (String c (dir +:+ name)).
  cbn [basename]. rewrite has_slash_app, Hname, orb_false_r.
  destruct dir as [|c' dir].
  - injection Hdir as ->. done.
  - rewrite (last_char_has_slash (String c' dir)) by done. by apply IH.
Qed.

(** The base name of the file [save] writes for a group. *)
Lemma basename_group_path rep_path g (values : field_map) :
  has_slash g = false →
  basename (group_path rep_path (g, values)) = g +:+ ".csv".
Proof.
  intros Hg. unfold group_path. cbn [fst].
  replace (rep_path +:+ "/" +:+ g +:+ ".csv")
    with ((rep_path +:+ "/") +:+ (g +:+ ".csv")).
  - apply basename_under; [apply last_char_slash |].
    by rewrite has_slash_app, Hg.
  - induction rep_path as [|c r IH]; [done |].
    change (String c r +:+ "/") with (String c (r +:+ "/")).
    change (String c (r +:+ "/") +:+ (g +:+ ".csv"))
      with (String c ((r +:+ "/") +:+ (g +:+ ".csv"))).
    by rewrite IH.
Qed.

(** X13.  The name the decoder is given for a row is the file's own name:
    for a file registered by a name without a slash, that name; for the
    file [save] writes for a group, the name of the group followed by
    [.csv]. *)
Theorem decoder_gets_file_name (name : string) :
  has_slash name = false →
  (∀ base, last_char base = Ok "/"%char → name ≠ "" →
           basename (resolve base name) = name)
  ∧ (∀ rep_path values,
       basename (group_path rep_path (name, values)) = name +:+ ".csv").
Proof.
  intros Hname. split.
  - intros base Hbase Hne. destruct name as [|c name]; [done |].
    unfold resolve. simpl in Hname.
    destruct (Ascii.eqb c "/"%char) eqn:Hc; [done |].
    apply basename_under; [done |]. simpl. by rewrite Hc.
  - intros rep_path values. by apply basename_group_path.
Qed.

(** A.csv under /d/, and the file of the group pkg. *)
Lemma decoder_gets_file_name_witness :
  basename (resolve "/d/" "A.csv") = "A.csv"
  ∧ basename (group_path "/d/s1-t1" ("pkg", power_fields)) = "pkg.csv".
Proof.
  split.
  - by apply (proj1 (decoder_gets_file_name "A.csv" eq_refl) "/d/").
  - replace "pkg.csv" with ("pkg" +:+ ".csv") by reflexivity.
    apply (proj2 (decoder_gets_file_name "pkg" eq_refl)).
Defined.

(** ** Rows as [save] writes them *)



Section ReadBack.
Context `{ReportModel} `{Imports}.




(** X14.  The row [save] writes for a group has one cell per column of
    the header, in the order of the header: the value of the field the
    column is named after, or the empty text when the group has no such
    field.  Every field of the group is a column, so that [writerow] does
    not raise. *)
Theorem row_follows_header (values : field_map) :
  let header := compute_header KEYS_COMMON values in
  writerow header values = Ok (row_for values)
  ∧ length (row_for values) = length header
  ∧ (∀ k, k ∈ values.*1 → k ∈ header)
  ∧ ∀ i k, header !! i = Some k →
           row_for values !! i = Some (cell_for values k).
Proof.
  cbv zeta. split; [apply writerow_compute_header |].
  split; [apply length_fmap |]. split.
  - intros k Hk. apply elem_of_compute_header. by right.
  - intros i k Hi. unfold row_for. by rewrite list_lookup_fmap, Hi.
Qed.




End ReadBack.

(** ** Saving a batch, and reading back what was saved *)

Section Batch.
Context `{ReportModel} `{Imports}.

Lemma save_many_db reports w : db (save_many reports w).2 = db w.
Proof. apply (for_each_frame db). intros r w0. apply save_db. Qed.

(** X16.  [save_many] saves the reports one after the other: on one
    report it does what [save] does; on a batch followed by another it
    saves the first batch and, when that returned, goes on with the second
    from the world the first left, and when that raised, ends with the
    exception and the world the first left.  So it stops at the first
    report whose [save] raises: the reports before it are saved, the world
    is the one that failing [save] left, the reports after it are not
    looked at.  It never touches the read state of the store. *)
Theorem save_many_stops_at_first_failure (reports : list dict) (w : world) :
  (∀ report, save_many [report] w = save report w)
  ∧ (∀ first second,
       save_many (first ++ second) w
       = match save_many first w with
         | (Ok _, w1) => save_many second w1
         | (Raise e, w1) => (Raise e, w1)
         end)
  ∧ db (save_many reports w).2 = db w
  ∧ match (save_many reports w).1 with
    | Ok _ => True
    | Raise e =>
        ∃ saved failing rest w1,
          reports = saved ++ failing :: rest
          ∧ save_many saved w = (Ok tt, w1)
          ∧ save failing w1 = (Raise e, (save_many reports w).2)
    end.
Proof.
  split; [| split; [| split]].
  - intros report. unfold save_many. cbn [for_each]. unfold bind, ret.
    by destruct (save report w) as [[[]|e] w1].
  - intros first second. unfold save_many.
    destruct (for_each first save w) as [[[]|e] w1] eqn:Hfirst.
    + by apply for_each_app.
    + clear reports. revert w Hfirst.
      induction first as [|r first IH]; intros w; [done |].
      cbn [for_each app]. unfold bind.
      destruct (save r w) as [[[]|e0] w0]; [apply IH | done].
  - apply save_many_db.
  - destruct (save_many reports w) as [[[]|e] w'] eqn:Hrun; [done |].
    unfold save_many in *.
    destruct (for_each_raise _ _ _ _ _ Hrun)
      as (saved & failing & rest & w1 & -> & Hsaved & Hfails).
    by exists saved, failing, rest, w1.
Qed.



End Batch.

Section RoundTrip.
Context `{ReportModel} `{Imports}.




End RoundTrip.

Section Reopen.
Context `{ReportModel} `{Imports}.






End Reopen.

(** ** The handlers of the pusher *)

Section HandlerFacts.
Context {D : Type} `{Database D}.

Lemma StartHandler_handle_eq msg (state : State D) :
  StartHandler_handle msg state
  = if initialized state then (Ok tt, state)
    else match msg with
         | StartMessage =>
             match database_load (database state) with
             | (Loaded, d) =>
                 (Ok tt,
                  {| initialized := true; alive := alive state; database := d;
                     socket_interface :=
                       socket_interface state ++ [OKMessage] |})
             | (DBError error_msg, d) =>
                 (Ok tt,
                  {| initialized := initialized state; alive := alive state;
                     database := d;
                     socket_interface :=
                       socket_interface state ++ [ErrorMessage error_msg] |})
             | (LoadRaise e, d) => (Raise e, set_database d state)
             end
         | _ => (Ok tt, state)
         end.
Proof.
  unfold StartHandler_handle. mred.
  destruct (initialized state) eqn:Hinit; [done |].
  destruct msg; [| done | done].
  destruct (database_load (database state)) as [[| |] d];
    unfold send_control, set_initialized, set_database; mred;
    cbn [initialized alive database socket_interface];
    by rewrite ?Hinit.
Qed.

Lemma start_handler_initialized msgs (state : State D) :
  initialized state = true →
  for_each msgs StartHandler_handle state = (Ok tt, state).
Proof.
  intros Hinit. induction msgs as [|msg msgs IH]; [done |].
  simpl. unfold bind. by rewrite StartHandler_handle_eq, Hinit.
Qed.

(** What [StartHandler] sends over a sequence of messages: an
    [ErrorMessage] for each load that failed, with the message of its
    [DBError], then [OKMessage] if a load succeeded. *)
Lemma start_handler_log msgs :
  ∀ state : State D,
    ∃ errors,
      socket_interface (for_each msgs StartHandler_handle state).2
      = socket_interface state ++ (ErrorMessage <$> errors)
          ++ (if initialized (for_each msgs StartHandler_handle state).2
                 && negb (initialized state)
              then [OKMessage] else [])
      ∧ Forall (λ m, ∃ d, (database_load d).1 = DBError m) errors
      ∧ (initialized (for_each msgs StartHandler_handle state).2
           && negb (initialized state) = true →
         ∃ d, (database_load d).1 = Loaded).
Proof.
  induction msgs as [|msg msgs IH]; intros state.
  { exists []. simpl. split; [| split; [by apply Forall_nil |]].
    - destruct (initialized state); by rewrite app_nil_r.
    - by destruct (initialized state). }
  simpl. unfold bind. rewrite StartHandler_handle_eq.
  destruct (initialized state) eqn:Hinit.
  { rewrite (start_handler_initialized msgs state Hinit). simpl.
    rewrite Hinit. exists []. simpl. rewrite app_nil_r.
    split; [done |]. split; [by apply Forall_nil | done]. }
  destruct msg.
  - destruct (database_load (database state)) as [[|error_msg|e] d] eqn:Hload.
    + rewrite start_handler_initialized by done. simpl. exists [].
      split; [done |]. split; [by apply Forall_nil |]. intros _.
      exists (database state). by rewrite Hload.
    + match goal with
      | |- context [for_each msgs StartHandler_handle ?s] =>
          destruct (IH s) as (errors & -> & Herrors & Hok)
      end.
      exists (error_msg :: errors). simpl in *.
      split; [by rewrite <- app_assoc |]. split; [| done].
      apply Forall_cons. split; [| done].
      exists (database state). by rewrite Hload.
    + simpl. rewrite Hinit. exists []. simpl. rewrite app_nil_r.
      split; [done |]. split; [by apply Forall_nil | done].
  - destruct (IH state) as (errors & -> & Herrors & Hok).
    rewrite Hinit in *. by exists errors.
  - destruct (IH state) as (errors & -> & Herrors & Hok).
    rewrite Hinit in *. by exists errors.
Qed.

(** X20.  [StartHandler], on a state that is not initialized and a
    [StartMessage], loads the database: when the load returns, the state
    becomes initialized and [OKMessage] is sent; when it raises [DBError],
    an [ErrorMessage] that carries the message of the error is sent and the
    state stays as it is, not initialized; any other exception goes up to
    the caller.  So, whatever the messages it is given, one after the
    other: it never changes [alive]; what it sends is one [ErrorMessage]
    for each load that failed, with the message of its [DBError], then
    [OKMessage], once, if a load succeeded; and from the moment the state
    is initialized it loads nothing, sends nothing and changes nothing. *)
Theorem start_handler_initializes_once (msgs : list message)
    (state : State D) :
  let run := for_each msgs StartHandler_handle state in
  (if initialized state then True
   else StartHandler_handle StartMessage state
        = match database_load (database state) with
          | (Loaded, d) =>
              (Ok tt,
               {| initialized := true; alive := alive state; database := d;
                  socket_interface :=
                    socket_interface state ++ [OKMessage] |})
          | (DBError error_msg, d) =>
              (Ok tt,
               {| initialized := false; alive := alive state; database := d;
                  socket_interface :=
                    socket_interface state ++ [ErrorMessage error_msg] |})
          | (LoadRaise e, d) => (Raise e, set_database d state)
          end)
  ∧ alive run.2 = alive state
  ∧ (if initialized state then run = (Ok tt, state) else True)
  ∧ (if initialized run.2
     then for_each msgs StartHandler_handle run.2 = (Ok tt, run.2)
     else True)
  ∧ ∃ errors,
      socket_interface run.2
      = socket_interface state ++ (ErrorMessage <$> errors)
          ++ (if initialized run.2 && negb (initialized state)
              then [OKMessage] else [])
      ∧ Forall (λ m, ∃ d, (database_load d).1 = DBError m) errors
      ∧ (initialized run.2 && negb (initialized state) = true →
         ∃ d, (database_load d).1 = Loaded).
Proof.
  cbv zeta. split; [| split; [| split; [| split]]].
  - destruct (initialized state) eqn:Hinit; [done |].
    rewrite StartHandler_handle_eq, Hinit.
    by destruct (database_load (database state)) as [[| |] d].
  - revert state. induction msgs as [|msg msgs IH]; intros state; [done |].
    simpl. unfold bind. rewrite StartHandler_handle_eq.
    destruct (initialized state); [by rewrite IH |].
    destruct msg; [| by rewrite IH | by rewrite IH].
    destruct (database_load (database state)) as [[| |] d];
      [by rewrite IH | by rewrite IH | done].
  - destruct (initialized state) eqn:Hinit; [| done].
    by apply start_handler_initialized.
  - destruct (initialized _) eqn:Hinit; [| done].
    by apply start_handler_initialized.
  - apply start_handler_log.
Qed.

Lemma PowerHandler_handle_eq msg (state : State D) :
  PowerHandler_handle msg state
  = match msg with
    | PowerReport serialized =>
        ((database_save serialized (database state)).1,
         set_database (database_save serialized (database state)).2 state)
    | _ => (Ok tt, state)
    end.
Proof.
  destruct msg as [|serialized|]; [done | | done].
  cbn [PowerHandler_handle]. unfold on_database.
  by destruct (database_save serialized (database state)).
Qed.

(** X21.  [PowerHandler] saves the [PowerReport] messages and nothing
    else: handling a sequence of messages does to the database what saving
    the serialized reports among them, in their order, does, and ends as
    that ends; the first [save] that raises ends it; the flags of the
    state and the control messages sent are as they were. *)
Theorem power_handler_saves_reports (msgs : list message) (state : State D) :
  let run := for_each msgs PowerHandler_handle state in
  let saved := for_each (power_reports msgs) database_save (database state) in
  run.1 = saved.1
  ∧ database run.2 = saved.2
  ∧ initialized run.2 = initialized state
  ∧ alive run.2 = alive state
  ∧ socket_interface run.2 = socket_interface state.
Proof.
  cbv zeta. revert state.
  induction msgs as [|msg msgs IH]; intros state; [done |].
  cbn [for_each]. unfold bind. rewrite PowerHandler_handle_eq.
  destruct msg as [|serialized|]; [apply IH | | apply IH].
  cbn [power_reports omap list_omap for_each]. unfold bind.
  destruct (database_save serialized (database state)) as [[[]|e] d];
    cbn [fst snd]; [| done].
  apply (IH (set_database d state)).
Qed.

End HandlerFacts.

Section PusherOnCsv.
Context `{ReportModel} `{Imports}.
Variable load : world → load_result * world.

(** X22.  With a [CsvDB] as the output database, [PowerHandler] does what
    [save_many] does on the serialized reports among the messages, and
    never changes the read state of the store: the registered files, their
    entries and the watermark. *)
Theorem power_handler_on_csv (msgs : list message) (state : State world) :
  let pusher : Database world :=
    {| database_load := load; database_save := save |} in
  let run := for_each msgs PowerHandler_handle state in
  (run.1, database run.2) = save_many (power_reports msgs) (database state)
  ∧ db (database run.2) = db (database state).
Proof.
  cbv zeta. revert state.
  induction msgs as [|msg msgs IH]; intros state; [done |].
  cbn [for_each]. unfold bind. rewrite PowerHandler_handle_eq.
  destruct msg as [|serialized|]; [apply IH | | apply IH].
  cbn [power_reports omap list_omap database_save].
  unfold save_many. cbn [for_each]. unfold bind.
  pose proof (save_db serialized (database state)) as Hdb.
  destruct (save serialized (database state)) as [[[]|e] w1];
    cbn [fst snd] in *; [| done].
  destruct (IH (set_database w1 state)) as [Hrun Hread].
  cbn [database set_database] in Hrun, Hread.
  split; [exact Hrun | congruence].
Qed.

End PusherOnCsv.

(** ** The properties on the example files *)

(** A.csv and B.csv, both there and readable. *)
Lemma connect_primes_every_file_witness :
  let db := store_with ["A.csv"; "B.csv"] in
  let db1 := (@connect py_imports demo_disk db).2 in
  filenames db1 = ["/d/A.csv"; "/d/B.csv"].
Proof.
  cbv zeta.
  assert (@connect py_imports demo_disk (store_with ["A.csv"; "B.csv"])
          = (Ok tt, (@connect py_imports demo_disk
                       (store_with ["A.csv"; "B.csv"])).2)) as Hconnect
    by (vm_compute; reflexivity).
  exact (proj1 (@connect_primes_every_file py_imports demo_disk
                  (store_with ["A.csv"; "B.csv"]) _ Hconnect)).
Defined.

(** A file whose header line has no sensor column, registered after
    A.csv. *)
Lemma connect_missing_common_key_witness :
  let short := {| readable := true;
                  content := [["timestamp"; "power"]; ["1"; "10"]] |} in
  (@connect py_imports (<["/d/short.csv" := short]> demo_disk)
     (store_with ["A.csv"; "short.csv"])).1
  = Raise CsvBadCommonKeysError.
Proof.
  cbv zeta.
  apply (@connect_missing_common_key py_imports
           (<["/d/short.csv" := {| readable := true;
                  content := [["timestamp"; "power"]; ["1"; "10"]] |}]>
              demo_disk)
           (store_with ["A.csv"; "short.csv"])
           ["/d/A.csv"] "/d/short.csv" []
           ["timestamp"; "power"] [["1"; "10"]] "sensor").
  - reflexivity.
  - intros p Hp. vm_compute in Hp.
    apply elem_of_cons in Hp as [-> | Hp]; [by eexists |].
    apply list_elem_of_singleton in Hp as ->. by eexists.
  - apply Forall_singleton. exists (content file_A).
    split; by vm_compute.
  - by vm_compute.
  - discriminate.
  - vm_compute. apply elem_of_cons. right. by left.
  - intros Hin. apply elem_of_cons in Hin as [? | Hin]; [done |].
    by apply list_elem_of_singleton in Hin.
Defined.


(** A.csv and B.csv after three calls: A.csv is exhausted, B.csv has its
    row at t=3 ahead of the watermark. *)
Lemma exhausted_stays_exhausted_witness :
  let db := @steps demo_model py_imports 3
              (@connect py_imports demo_disk
                 (store_with ["A.csv"; "B.csv"])).2 in
  @__next__ demo_model py_imports db = (Raise StopIteration, db).
Proof.
  cbv zeta.
  refine (proj1 (@exhausted_stays_exhausted demo_model py_imports _ 0 _)).
  intros p Hp.
  assert (p = "/d/A.csv" ∨ p = "/d/B.csv") as [-> | ->].
  { vm_compute in Hp. apply elem_of_cons in Hp as [-> | Hp]; [by left |].
    apply list_elem_of_singleton in Hp as ->. by right. }
  - remember (tmp_read _ !! "/d/A.csv") as o eqn:Ho. vm_compute in Ho.
    subst o. eexists. split; [reflexivity |]. left. reflexivity.
  - remember (tmp_read _ !! "/d/B.csv") as o eqn:Ho. vm_compute in Ho.
    subst o. eexists. split; [reflexivity |]. right.
    eexists _, 3. split; [reflexivity |].
    split; [vm_compute; reflexivity |].
    split; [vm_compute; reflexivity | vm_compute; discriminate].
Defined.






(** ** [save] only appends *)

Lemma extends_refl fs : extends fs fs.
Proof. intros p f Hf. exists f, []. by rewrite app_nil_r. Qed.

Lemma extends_trans fs1 fs2 fs3 :
  extends fs1 fs2 → extends fs2 fs3 → extends fs1 fs3.
Proof.
  intros H12 H23 p f Hf.
  destruct (H12 p f Hf) as (f2 & more2 & Hf2 & Hr2 & Hc2).
  destruct (H23 p f2 Hf2) as (f3 & more3 & Hf3 & Hr3 & Hc3).
  exists f3, (more2 ++ more3). split; [done |]. split; [congruence |].
  by rewrite Hc3, Hc2, <- app_assoc.
Qed.

Lemma append_lines_extends path lines fs :
  extends fs (append_lines path lines fs).
Proof.
  intros p f Hf. destruct (decide (p = path)) as [-> | Hne].
  - destruct (append_lines_lookup path lines fs) as (f' & Hf' & Hc & Hr).
    rewrite Hf in Hc, Hr. by exists f', lines.
  - exists f, []. rewrite append_lines_lookup_ne by done.
    by rewrite app_nil_r.
Qed.

Section AppendOnly.
Context `{ReportModel} `{Imports}.

Lemma save_group_extends rep_path g w :
  extends (disk w) (disk (save_group rep_path g w).2).
Proof.
  rewrite save_group_eq. cbv zeta.
  destruct (disk w !! group_path rep_path g) as [f|].
  - destruct (readable f); [| apply extends_refl].
    destruct (decide _); [| apply extends_refl].
    apply append_lines_extends.
  - apply append_lines_extends.
Qed.

Lemma for_each_extends {A} (body : A → M world unit) (l : list A) :
  (∀ x w, extends (disk w) (disk (body x w).2)) →
  ∀ w, extends (disk w) (disk (for_each l body w).2).
Proof.
  intros Hbody. induction l as [|x l IH]; intros w; [apply extends_refl |].
  simpl. unfold bind. pose proof (Hbody x w) as Hx.
  destruct (body x w) as [[[]|e] w1]; [| done].
  by apply (extends_trans _ (disk w1)).
Qed.

Lemma save_extends report w : extends (disk w) (disk (save report w).2).
Proof.
  rewrite save_eq.
  destruct (str_field "sensor" report); [| apply extends_refl].
  destruct (str_field "target" report); [| apply extends_refl].
  apply for_each_extends. intros g w0. apply save_group_extends.
Qed.

(** X23.  [save] and [save_many] only append, however they end: every
    file that was on the disk is still there, as readable as it was, and
    holds the lines it held, in their order, followed by the lines the
    call wrote.  No file is removed, no line is rewritten. *)
Theorem save_only_appends (report : dict) (reports : list dict) (w : world) :
  extends (disk w) (disk (save report w).2)
  ∧ extends (disk w) (disk (save_many reports w).2).
Proof.
  split; [apply save_extends |].
  apply for_each_extends. intros r w0. apply save_extends.
Qed.

End AppendOnly.

(** ** One record per timestamp *)

Section Distinct.
Context `{ReportModel} `{Imports}.

Lemma scan_settles T primary fname stream json :
  Forall has_timestamp stream →
  ∃ json' stream' saved,
    scan T primary fname stream json = (Ok json', stream', saved)
    ∧ Forall has_timestamp stream'
    ∧ match stream' with
      | [] => saved = None
      | row :: _ =>
          ∃ t, row_timestamp row = Ok t ∧ T < t
               ∧ saved = if primary then Some t else None
      end.
Proof.
  intros Hall. revert json.
  induction Hall as [|row rows [t Ht] Hrows IH]; intros json.
  { exists json, [], None. split; [done |]. split; [by apply Forall_nil | done]. }
  simpl. rewrite Ht. destruct (T <? t) eqn:Hlt.
  - eexists _, _, _. split; [done |].
    split; [apply Forall_cons; split; [by exists t | done] |].
    exists t. split; [done |]. split; [by apply Z.ltb_lt | done].
  - apply IH.
Qed.

(** What the inner loop of [__next__] leaves of a file whose rows have
    timestamps. *)
Lemma while_true_settles p T json db :
  timed db → p ∈ filenames db →
  ∃ json',
    (while_true p T json db).1 = Ok json'
    ∧ timed (while_true p T json db).2
    ∧ ∃ e, tmp_read (while_true p T json db).2 !! p = Some e
           ∧ match next_line e with
             | Exhausted =>
                 saved_timestamp (while_true p T json db).2
                 = saved_timestamp db
             | Row row =>
                 ∃ t, row_timestamp row = Ok t ∧ T < t
                      ∧ saved_timestamp (while_true p T json db).2
                        = if bool_decide (head (filenames db) = Some p)
                          then t else saved_timestamp db
             | Unprimed => False
             end.
Proof.
  intros Hdb Hp. destruct (Hdb p Hp) as (e & stream & He & Hholds & Hall).
  destruct stream as [|row rows].
  { simpl in Hholds. exists json.
    unfold while_true. mred. rewrite (get_entry_some _ _ _ He), Hholds.
    simpl. split; [done |]. split; [done |]. exists e. by rewrite Hholds. }
  destruct Hholds as [Hrow Hrows].
  rewrite (while_true_stream _ _ _ _ _ _ _ He Hrow Hrows).
  destruct (scan_settles T (bool_decide (head (filenames db) = Some p))
              (basename p) (row :: rows) json Hall)
    as (json' & stream' & saved & -> & Hall' & Hsettled).
  exists json'. split; [done |]. cbn [fst snd]. split.
  - intros q Hq. rewrite filenames_store_saved in Hq.
    rewrite tmp_read_store_saved. simpl in *.
    destruct (decide (q = p)) as [->|Hne].
    + exists (of_stream stream' e), stream'. rewrite lookup_insert_eq.
      split; [done |]. split; [| done]. apply holds_of_stream.
      by apply (holds_cons_open e row rows).
    + rewrite lookup_insert_ne by done. by apply Hdb.
  - exists (of_stream stream' e). rewrite tmp_read_store_saved. simpl.
    rewrite lookup_insert_eq. split; [done |].
    destruct stream' as [|row' rows']; simpl.
    + by subst saved.
    + destruct Hsettled as (t & Ht & Hlt & ->). exists t.
      split; [done |]. split; [done |]. by case_bool_decide.
Qed.

(** The loop over the files, on files whose rows have timestamps: it
    leaves every file it went through with nothing at the timestamp or
    before it, and moved the watermark when it left the first registered
    file with a row ahead. *)
Lemma for_filenames_settles T paths :
  ∀ json db (seen : list string),
    timed db → paths ⊆ filenames db →
    (∀ p, p ∈ seen → settled T db p) →
    (∀ p e row, p ∈ seen → head (filenames db) = Some p →
                tmp_read db !! p = Some e → next_line e = Row row →
                row_timestamp row = Ok (saved_timestamp db)) →
    let db' := (for_filenames paths T json db).2 in
    (∃ json', (for_filenames paths T json db).1 = Ok json')
    ∧ timed db'
    ∧ filenames db' = filenames db
    ∧ (∀ p, p ∈ seen ++ paths → settled T db' p)
    ∧ (∀ p e row, p ∈ seen ++ paths → head (filenames db) = Some p →
                  tmp_read db' !! p = Some e → next_line e = Row row →
                  row_timestamp row = Ok (saved_timestamp db')).
Proof.
  induction paths as [|q paths IH]; intros json db seen Hdb Hsub Hseen Hhead.
  { cbv zeta. simpl. rewrite app_nil_r. split; [by eauto |]. done. }
  cbv zeta. simpl. unfold bind.
  assert (q ∈ filenames db) as Hq by (apply Hsub; by left).
  destruct (while_true_settles q T json db Hdb Hq)
    as (json1 & Hres & Hdb1 & e1 & He1 & Hnext).
  destruct (while_true_frame q T json db) as (Hf & _ & _ & Hother).
  destruct (while_true q T json db) as [res db1]. simpl in *. subst res.
  destruct (IH json1 db1 (seen ++ [q])) as (Hok & Hdb' & Hf' & Hall & Hprim).
  - done.
  - rewrite Hf. intros p Hp. apply Hsub. by right.
  - intros p Hp. destruct (decide (p = q)) as [-> | Hne].
    + exists e1. split; [done |].
      destruct (next_line e1) as [| |row]; [done | by left |].
      destruct Hnext as (t & Ht & Hlt & _). right. by exists row, t.
    + apply elem_of_app in Hp as [Hp | Hp];
        [| by apply list_elem_of_singleton in Hp].
      destruct (Hseen p Hp) as (e & He & Hcase). exists e.
      by rewrite (Hother p Hne).
  - intros p e row Hp Hp0 He Hrow. rewrite Hf in Hp0.
    destruct (decide (p = q)) as [-> | Hne].
    + assert (e = e1) as -> by congruence. rewrite Hrow in Hnext.
      destruct Hnext as (t & Ht & _ & Hsaved).
      rewrite bool_decide_true in Hsaved by done. congruence.
    + apply elem_of_app in Hp as [Hp | Hp];
        [| by apply list_elem_of_singleton in Hp].
      rewrite (Hother p Hne) in He.
      assert (saved_timestamp db1 = saved_timestamp db) as ->.
      { destruct (next_line e1) as [| |row1]; [done | done |].
        destruct Hnext as (t & _ & _ & ->).
        rewrite bool_decide_false; [done |]. congruence. }
      by apply (Hhead p e row).
  - split; [done |]. split; [done |]. split; [congruence |].
    rewrite <- app_assoc in Hall, Hprim. simpl in Hall, Hprim.
    split; [done |]. intros p e row Hp Hp0. apply Hprim; [done |].
    by rewrite Hf.
Qed.

(** A call of [__next__] on files whose rows have timestamps moves the
    watermark forward, or leaves the store with nothing more to give. *)
Lemma next_settles db :
  timed db →
  saved_timestamp db < saved_timestamp (__next__ db).2
  ∨ (saved_timestamp (__next__ db).2 = saved_timestamp db
     ∧ drained (__next__ db).2).
Proof.
  intros Hdb.
  destruct (next_advanced db) as [_ Hadv].
  destruct Hadv as [Hsame | [Hlt _]]; [| by left]. right. split; [done |].
  revert Hsame. unfold __next__. mred.
  destruct (for_filenames_settles (saved_timestamp db) (filenames db)
              [] db [] Hdb) as ([json Hres] & _ & Hf & Hall & Hprim).
  { done. }
  { intros p Hp. by apply elem_of_nil in Hp. }
  { intros p e row Hp. by apply elem_of_nil in Hp. }
  simpl in Hall, Hprim.
  destruct (for_filenames _ _ _ db) as [res db1]. simpl in *. subst res.
  assert (saved_timestamp db1 = saved_timestamp db → drained db1) as Hdrained.
  { intros Hsame p Hp. rewrite Hf in Hp.
    destruct (Hall p Hp) as (e & He & [Hend | (row & t & Hrow & Ht & Hlt)]).
    { exists e. split; [done |]. by left. }
    exists e. split; [done |]. right. exists row, t.
    split; [done |]. split; [done |]. split; [by rewrite Hsame |].
    rewrite Hf. intros Hp0.
    pose proof (Hprim p e row Hp Hp0 He Hrow) as Ht'.
    rewrite Hsame in Ht'. assert (t = saved_timestamp db) by congruence. lia. }
  destruct json; simpl; intros Hsame; by apply Hdrained.
Qed.

Lemma pull_drained fuel db out res db' :
  drained db → pull (S fuel) db = Some (out, res, db') → out = [].
Proof.
  intros Hdb. simpl. rewrite (next_drained db Hdb). by intros [= <- _ _].
Qed.

Lemma pull_strictly_sorted fuel :
  ∀ db out res db',
    timed db → pull fuel db = Some (out, res, db') →
    StronglySorted Z.lt out.*1.
Proof.
  induction fuel as [|fuel IH]; intros db out res db' Hdb; [done |].
  simpl. destruct (next_timed db Hdb) as [_ Hdb1].
  pose proof (next_settles db Hdb) as Hstep.
  destruct (__next__ db) as [[json|e] db1]; simpl in *.
  - destruct (pull fuel db1) as [[[out1 res1] db2]|] eqn:Hpull; [| done].
    intros [= <- _ _]. simpl. constructor; [by apply (IH db1 _ res1 db2) |].
    destruct Hstep as [Hlt | [_ Hdrained]].
    + destruct (pull_sorted _ _ _ _ _ Hpull) as [Hge _].
      eapply Forall_impl; [exact Hge |]. simpl. intros t Ht. lia.
    + destruct fuel as [|fuel']; [done |].
      rewrite (pull_drained _ _ _ _ _ Hdrained Hpull). by apply Forall_nil.
  - destruct e; intros [= <- _ _]; constructor.
Qed.

(** X24.  One record per timestamp.  When every row of the registered
    files has a timestamp, the records a connected store yields come with
    watermarks that increase strictly: no timestamp gets two records. *)
Theorem one_record_per_timestamp (fs : filesystem) (db db1 : CsvDB) :
  connect fs db = (Ok tt, db1) →
  (∀ p, p ∈ filenames db → Forall has_timestamp (rows_of fs p)) →
  ∃ out db',
    pull (S (backlog db1)) db1 = Some (out, Ok tt, db')
    ∧ StronglySorted Z.lt out.*1
    ∧ NoDup out.*1.
Proof.
  intros Hconnect Hrows.
  pose proof (connect_timed fs db db1 Hconnect Hrows) as Hdb1.
  destruct (pull_terminates (S (backlog db1)) db1) as [[[out res] db'] Hpull];
    [lia |].
  destruct (pull_timed _ _ _ _ _ Hdb1 Hpull) as [-> _].
  pose proof (pull_strictly_sorted _ _ _ _ _ Hdb1 Hpull) as Hsorted.
  exists out, db'. split; [done |]. split; [done |].
  clear -Hsorted. induction Hsorted as [|t ts _ IH Hlt]; [constructor |].
  apply NoDup_cons. split; [| done]. intros Hin.
  rewrite Forall_forall in Hlt. specialize (Hlt t Hin). lia.
Qed.


End Distinct.


(** B.csv registered before A.csv, and A.csv twice. *)
Lemma one_record_per_timestamp_witness :
  ∃ out db',
    @pull demo_model py_imports
      (S (backlog (@connect py_imports demo_disk
                     (store_with ["B.csv"; "A.csv"; "A.csv"])).2))
      (@connect py_imports demo_disk
         (store_with ["B.csv"; "A.csv"; "A.csv"])).2
    = Some (out, Ok tt, db')
    ∧ NoDup out.*1.
Proof.
  assert (@connect py_imports demo_disk (store_with ["B.csv"; "A.csv"; "A.csv"])
          = (Ok tt, (@connect py_imports demo_disk
                       (store_with ["B.csv"; "A.csv"; "A.csv"])).2))
    as Hconnect by (vm_compute; reflexivity).
  destruct (@one_record_per_timestamp demo_model py_imports demo_disk
              (store_with ["B.csv"; "A.csv"; "A.csv"]) _ Hconnect)
    as (out & db' & Hpull & _ & Hnodup).
  - clear Hconnect. intros p Hp.
    assert (p = "/d/B.csv" ∨ p = "/d/A.csv") as [-> | ->].
    { vm_compute in Hp. apply elem_of_cons in Hp as [-> | Hp]; [by left |].
      apply elem_of_cons in Hp as [-> | Hp]; [by right |].
      apply list_elem_of_singleton in Hp as ->. by right. }
    + set (rs := rows_of demo_disk "/d/B.csv"). vm_compute in rs. subst rs.
      repeat (apply Forall_cons; split; [eexists; lazy; reflexivity |]).
      by apply Forall_nil.
    + set (rs := rows_of demo_disk "/d/A.csv"). vm_compute in rs. subst rs.
      repeat (apply Forall_cons; split; [eexists; lazy; reflexivity |]).
      by apply Forall_nil.
  - exists out, db'. split; [exact Hpull | exact Hnodup].
Defined.

(** A timestamp the conversion refuses.  The file far.csv holds one row,
    whose timestamp no datetime stands for.  Registered first, it makes
    [connect] raise the exception of the conversion.  Registered after
    A.csv, it lets [connect] return, and every call of [__next__] then
    raises that exception when it comes to the row, which stays the
    lookahead of the file. *)
Lemma conversion_error_goes_up :
  let far := {| readable := true;
                content := [power_header;
                            ["1000000000000000000"; "s1"; "t1"; "0"; "0";
                             "7"]] |} in
  let fs := <["/d/far.csv" := far]> demo_disk in
  let db1 := (@connect py_imports fs (store_with ["A.csv"; "far.csv"])).2 in
  (@connect py_imports fs (store_with ["far.csv"; "A.csv"])).1
  = Raise ValueError
  ∧ @connect py_imports fs (store_with ["A.csv"; "far.csv"]) = (Ok tt, db1)
  ∧ (@__next__ demo_model py_imports db1).1 = Raise ValueError
  ∧ (@__next__ demo_model py_imports
       (@__next__ demo_model py_imports db1).2).1 = Raise ValueError.
Proof.
  cbv zeta. split; [vm_compute; reflexivity |].
  split; [vm_compute; reflexivity |].
  split; vm_compute; reflexivity.
Qed.
